(** * The Trezor client base of lbryum: interaction callbacks and session glue

    A shallow embedding of [plugins/trezor/clientbase.py]: the [GuiMixin]
    callbacks that answer the device's interaction requests, and
    [TrezorClientBase] with its override-setting operations, session
    teardown, path expansion, version comparison and the method wrapper
    that signals completion to the handler.

    Python objects are modelled as records, attribute mutation as explicit
    state passing, and exceptions as an outcome type; the calls made on the
    handler are recorded in a call log carried by the session. *)

From Stdlib Require Import ZArith Lia Ascii String List DecimalString.
From stdpp Require Import base option list gmap strings fin_maps.

Local Open Scope Z_scope.
Local Open Scope string_scope.

(** ** Python values, exceptions and protocol messages *)

(** The Python values that cross the interfaces of this module. *)
#[warnings="-register-all"]
Inductive value : Type :=
  | VNone
  | VBool (b : bool)
  | VInt (z : Z)
  | VStr (s : string)
  | VList (l : list value).

(** Exceptions, by class, with the single argument they are built from.
    [SilentException] comes from [lbryum.util]; it carries no argument. *)
Inductive exn : Type :=
  | SilentException
  | RuntimeError (msg : string)
  | AttributeError (name : string)
  | KeyError (name : string)
  | ValueError (msg : string)
  | TypeError (msg : string)
  | OtherException (cls msg : string).

(** [str(e)] for an exception built from at most one argument. *)
Definition str_exn (e : exn) : string :=
  match e with
  | SilentException => ""
  | RuntimeError m | AttributeError m | KeyError m
  | ValueError m | TypeError m | OtherException _ m => m
  end.

(** Requests the device sends to the dispatcher.  The payload of a
    character request is passed to the handler untouched. *)
Inductive request : Type :=
  | Failure (code : Z) (message : string)
  | ButtonRequest (code : Z)
  | PinMatrixRequest (type : Z)
  | PassphraseRequest
  | WordRequest
  | CharacterRequest (payload : value).

(** Messages built through [self.proto]. *)
Inductive response : Type :=
  | ButtonAck
  | Cancel
  | PinMatrixAck (pin : string)
  | PassphraseAck (passphrase : string)
  | WordAck (word : string)
  | CharacterAck (fields : list (string * value)).

(** ** The handler and the session *)

(** One entry per call made on [self.handler] or on [print_error]. *)
Inductive event : Type :=
  | show_message_call (text : string)
  | get_pin_call (prompt : string)
  | get_passphrase_call (prompt : string)
  | get_word_call (prompt : string)
  | get_char_call (payload : value)
  | finished_call
  | print_error_call (parts : list string).

(** Modelled from the spec: the handler is the object the wallet supplies;
    its prompts are given by their replies, an optional string for the PIN
    and the passphrase, a string for a recovery word, optional fields for a
    character; a reply may depend on the calls made so far.
    [show_message] and [finished] return nothing. *)
Record Handler : Type := {
  get_pin : list event -> string -> option string;
  get_passphrase : list event -> string -> option string;
  get_word : list event -> string -> string;
  get_char : list event -> value -> option (list (string * value))
}.

(** The failure codes read from [plugin.types]. *)
Record Types : Type := {
  Failure_PinCancelled : Z;
  Failure_ActionCancelled : Z
}.

(** The device's feature snapshot, as far as this module reads it. *)
Record Features : Type := {
  label_ : string;
  device_id : string;
  initialized : bool;
  passphrase_protection : bool;
  major_version : Z;
  minor_version : Z;
  patch_version : Z
}.

(** The attributes of a client object.  [step] is not set by [__init__]:
    it is absent until the recovery flow assigns it. *)
Record Session : Type := {
  device : string;
  handler : Handler;
  types : Types;
  msg_code_override : option string;
  step : option Z;
  features : Features;
  calls : list event
}.

Definition set_msg_code_override (o : option string) (s : Session) : Session :=
  {| device := device s; handler := handler s; types := types s;
     msg_code_override := o; step := step s; features := features s;
     calls := calls s |}.

Definition set_step (n : option Z) (s : Session) : Session :=
  {| device := device s; handler := handler s; types := types s;
     msg_code_override := msg_code_override s; step := n;
     features := features s; calls := calls s |}.

Definition record_call (e : event) (s : Session) : Session :=
  {| device := device s; handler := handler s; types := types s;
     msg_code_override := msg_code_override s; step := step s;
     features := features s; calls := calls s ++ [e] |}.

(** ** Computations on a session that may raise *)

Inductive outcome (A : Type) : Type :=
  | Normal (a : A)
  | Raise (e : exn).
Arguments Normal {A} a.
Arguments Raise {A} e.

Definition M (A : Type) : Type := Session -> outcome A * Session.

Definition ret {A} (a : A) : M A := fun s => (Normal a, s).

Definition raise {A} (e : exn) : M A := fun s => (Raise e, s).

Definition bind {A B} (c : M A) (k : A -> M B) : M B :=
  fun s =>
    match c s with
    | (Normal a, s') => k a s'
    | (Raise e, s') => (Raise e, s')
    end.

Declare Scope py_scope.
Delimit Scope py_scope with py.
Notation "'let*' x ':=' c 'in' k" := (bind c (fun x => k))
  (at level 10, x name, c at level 100, k at level 200) : py_scope.
Notation "'exec' c 'in' k" := (bind c (fun _ => k))
  (at level 10, c at level 100, k at level 200) : py_scope.
Local Open Scope py_scope.

Definition get_attr {A} (f : Session -> A) : M A := fun s => (Normal (f s), s).

Definition modify (f : Session -> Session) : M unit :=
  fun s => (Normal tt, f s).

(** [try: body finally: fin].  The final block runs on both exits; when it
    raises, its exception replaces the outcome of the body. *)
Definition try_finally {A} (body : M A) (fin : M unit) : M A :=
  fun s =>
    match body s with
    | (r, s1) =>
        match fin s1 with
        | (Normal _, s2) => (r, s2)
        | (Raise e, s2) => (Raise e, s2)
        end
    end.

(** [try: body except BaseException as e: on_exn e]. *)
Definition try_except {A} (body : M A) (on_exn : exn -> M A) : M A :=
  fun s =>
    match body s with
    | (Normal a, s1) => (Normal a, s1)
    | (Raise e, s1) => on_exn e s1
    end.

(** ** String primitives of Python used by the module *)

Definition quote : ascii := "'"%char.

(** [s.startswith(p)]. *)
Definition startswith (p s : string) : bool := String.prefix p s.

(** [s.endswith(c)] for a one-character suffix. *)
Fixpoint endswith_char (c : ascii) (s : string) : bool :=
  match s with
  | EmptyString => false
  | String a EmptyString => Ascii.eqb a c
  | String _ r => endswith_char c r
  end.

(** [s.replace(c, '')] for a one-character pattern: every occurrence goes. *)
Fixpoint remove_char (c : ascii) (s : string) : string :=
  match s with
  | EmptyString => EmptyString
  | String a r =>
      if Ascii.eqb a c then remove_char c r else String a (remove_char c r)
  end.

(** [s.split(sep)] for a one-character separator: never an empty list. *)
Fixpoint split (sep : ascii) (s : string) : list string :=
  match s with
  | EmptyString => [EmptyString]
  | String a r =>
      if Ascii.eqb a sep then EmptyString :: split sep r
      else match split sep r with
           | h :: t => String a h :: t
           | [] => [String a EmptyString]
           end
  end.

(** The decimal text of an integer, as [%d] and [str] print it. *)
Definition decimal (z : Z) : string := NilZero.string_of_int (Z.to_int z).

Definition is_space (a : ascii) : bool :=
  let n := nat_of_ascii a in
  (Nat.eqb n 32 || (Nat.leb 9 n && Nat.leb n 13))%bool.

Fixpoint lstrip (s : string) : string :=
  match s with
  | String a r => if is_space a then lstrip r else s
  | EmptyString => EmptyString
  end.

Definition digit_value (a : ascii) : option Z :=
  let n := nat_of_ascii a in
  if (Nat.leb 48 n && Nat.leb n 57)%bool then Some (Z.of_nat n - 48) else None.

(** Reads a run of decimal digits followed only by white space;
    [seen] tells whether a digit has been read. *)
Fixpoint read_digits (acc : Z) (seen : bool) (s : string) : option Z :=
  match s with
  | EmptyString => if seen then Some acc else None
  | String a r =>
      match digit_value a with
      | Some d => read_digits (10 * acc + d) true r
      | None =>
          if (seen && is_space a)%bool then
            match lstrip r with EmptyString => Some acc | _ => None end
          else None
      end
  end.

(** [int(s)] on a string.  The texts accepted are white space around an
    optional sign and one or more decimal digits; [None] stands for the
    [ValueError] raised on any other text. *)
Definition py_int (s : string) : option Z :=
  match lstrip s with
  | String "-" r => Z.opp <$> read_digits 0 false r
  | String "+" r => read_digits 0 false r
  | t => read_digits 0 false t
  end.

(** The arguments of the [%] operator that occur in the module. *)
Inductive format_arg : Type :=
  | FStr (s : string)
  | FInt (z : Z).

(** [template % args] with the directives [%s], [%d] and [%%]; [None]
    stands for the [TypeError] (or [ValueError]) Python raises when the
    directives and the arguments do not match. *)
Fixpoint pyformat (t : string) (args : list format_arg) : option string :=
  match t with
  | EmptyString => match args with [] => Some EmptyString | _ => None end
  | String "%" (String d r) =>
      if Ascii.eqb d "s" then
        match args with
        | FStr x :: rest => String.append x <$> pyformat r rest
        | FInt z :: rest => String.append (decimal z) <$> pyformat r rest
        | [] => None
        end
      else if Ascii.eqb d "d" then
        match args with
        | FInt z :: rest => String.append (decimal z) <$> pyformat r rest
        | _ => None
        end
      else if Ascii.eqb d "%" then String "%" <$> pyformat r args
      else None
  | String "%" EmptyString => None
  | String a r => String a <$> pyformat r args
  end.

(** ** GuiMixin *)

(** Modelled from the spec: the catalogue lookup [_] of [lbryum.i18n] is not
    part of the sources at hand; the prompts the spec describes are the
    templates as written, so the lookup returns its argument. *)
Definition gettext (s : string) : string := s.

(** The keys of [GuiMixin.messages]: button-request codes and override tags. *)
Inductive key : Type :=
  | KInt (z : Z)
  | KStr (s : string).

#[global] Instance key_eq_dec : EqDecision key.
Proof. solve_decision. Defined.

#[global] Instance key_countable : Countable key.
Proof.
  refine (inj_countable'
            (fun k => match k with KInt z => inl z | KStr t => inr t end)
            (fun x => match x with inl z => KInt z | inr t => KStr t end) _).
  intros []; reflexivity.
Defined.

Definition message_items : list (key * string) :=
  [
    (KInt 3, gettext "Confirm transaction outputs on %s device to continue");
    (KInt 8, gettext "Confirm transaction fee on %s device to continue");
    (KInt 7, gettext "Confirm message to sign on %s device to continue");
    (KInt 10, gettext "Confirm address on %s device to continue");
    (KStr "change pin", gettext "Confirm PIN change on %s device to continue");
    (KStr "default", gettext "Check %s device to continue");
    (KStr "homescreen",
       gettext "Confirm home screen change on %s device to continue");
    (KStr "label", gettext "Confirm label change on %s device to continue");
    (KStr "remove pin",
       gettext "Confirm removal of PIN on %s device to continue");
    (KStr "passphrase", gettext "Confirm on %s device to continue")
  ].

Definition messages : gmap key string := list_to_map message_items.

(** [d[k]]: a missing key is a [KeyError]. *)
Definition getitem (d : gmap key string) (k : key) : M string :=
  match d !! k with
  | Some v => ret v
  | None => raise (KeyError match k with KInt z => decimal z | KStr t => t end)
  end.

(** [template % args] inside a computation. *)
Definition format (t : string) (args : list format_arg) : M string :=
  match pyformat t args with
  | Some text => ret text
  | None => raise (TypeError "format arguments do not match the template")
  end.

(** Truth value of a string: only the empty string is false. *)
Definition truthy (t : string) : bool := negb (String.eqb t "").

(** [self.msg_code_override or msg.code]. *)
Definition override_or_code (override : option string) (code : Z) : key :=
  match override with
  | Some t => if truthy t then KStr t else KInt code
  | None => KInt code
  end.

(** Calls on [self.handler]: each is entered in the call log; a prompt
    returns the handler's reply.  The second argument of [show_message] is
    always the bound method [self.cancel]. *)
Definition handler_show_message (text : string) : M unit :=
  modify (record_call (show_message_call text)).

Definition handler_get_pin (prompt : string) : M (option string) :=
  fun s => (Normal (get_pin (handler s) (calls s) prompt),
            record_call (get_pin_call prompt) s).

Definition handler_get_passphrase (prompt : string) : M (option string) :=
  fun s => (Normal (get_passphrase (handler s) (calls s) prompt),
            record_call (get_passphrase_call prompt) s).

Definition handler_get_word (prompt : string) : M string :=
  fun s => (Normal (get_word (handler s) (calls s) prompt),
            record_call (get_word_call prompt) s).

Definition handler_get_char (payload : value)
  : M (option (list (string * value))) :=
  fun s => (Normal (get_char (handler s) (calls s) payload),
            record_call (get_char_call payload) s).

Definition handler_finished : M unit := modify (record_call finished_call).

Definition lf : string := String (ascii_of_nat 10) EmptyString.

Definition callback_Failure (code : Z) (message : string) : M response :=
  let* t := get_attr types in
  if (Z.eqb code (Failure_PinCancelled t)
      || Z.eqb code (Failure_ActionCancelled t))%bool
  then raise SilentException
  else raise (RuntimeError message).

Definition callback_ButtonRequest (code : Z) : M response :=
  let* override := get_attr msg_code_override in
  let msg_code := override_or_code override code in
  let* fallback := getitem messages (KStr "default") in
  let message := default fallback (messages !! msg_code) in
  let* dev := get_attr device in
  let* text := format message [FStr dev] in
  exec handler_show_message text in
  ret ButtonAck.

Definition callback_PinMatrixRequest (type : Z) : M response :=
  let msg :=
    if Z.eqb type 1 then gettext "Enter your current %s PIN:"
    else if Z.eqb type 2 then gettext "Enter a new %s PIN:"
    else if Z.eqb type 3 then
      gettext ("Please re-enter your new %s PIN." ++ lf
               ++ "Note the numbers have been shuffled!")
    else gettext "Please enter %s PIN" in
  let* dev := get_attr device in
  let* prompt := format msg [FStr dev] in
  let* pin := handler_get_pin prompt in
  match pin with
  | Some p => if truthy p then ret (PinMatrixAck p) else ret Cancel
  | None => ret Cancel
  end.

Definition callback_PassphraseRequest : M response :=
  let msg := gettext "Please enter your %s passphrase" in
  let* dev := get_attr device in
  let* prompt := format msg [FStr dev] in
  let* passphrase := handler_get_passphrase prompt in
  match passphrase with
  | None => ret Cancel
  | Some p => ret (PassphraseAck p)
  end.

Definition callback_WordRequest : M response :=
  let* old := get_attr step in
  match old with
  | None => raise (AttributeError "step")
  | Some n =>
      exec modify (set_step (Some (n + 1))) in
      let* dev := get_attr device in
      let* msg :=
        format
          (gettext "Step %d/24.  Enter seed word as explained on your %s:")
          [FInt (n + 1); FStr dev] in
      let* word := handler_get_word msg in
      ret (WordAck word)
  end.

Definition callback_CharacterRequest (payload : value) : M response :=
  let* char_info := handler_get_char payload in
  match char_info with
  | None | Some [] => ret Cancel
  | Some fields => ret (CharacterAck fields)
  end.

(** The base client looks the callback up by the name of the request's
    message type. *)
Definition callback (r : request) : M response :=
  match r with
  | Failure code message => callback_Failure code message
  | ButtonRequest code => callback_ButtonRequest code
  | PinMatrixRequest type => callback_PinMatrixRequest type
  | PassphraseRequest => callback_PassphraseRequest
  | WordRequest => callback_WordRequest
  | CharacterRequest payload => callback_CharacterRequest payload
  end.

(** ** TrezorClientBase *)

(** A method of the client class: positional and keyword arguments in,
    a computation on the client out. *)
Abbreviation method := (list value -> list (string * value) -> M value).

(** Modelled from the spec: [print_error] comes with the [PrintError]
    mixin of [lbryum.util], which is not part of the sources at hand; it
    logs its arguments and returns. *)
Definition print_error (parts : list string) : M unit :=
  modify (record_call (print_error_call parts)).

Definition label (s : Session) : string := label_ (features s).

Definition is_initialized (s : Session) : bool := initialized (features s).

(** [__str__]: [label/device_id]. *)
Definition to_str : M string :=
  let* f := get_attr features in
  format "%s/%s" [FStr (label_ f); FStr (device_id f)].

Definition PRIME_DERIVATION_FLAG : Z := 0x80000000.

(** One turn of the loop of [expand_path]: the value appended for the
    component [x]. *)
Definition expand_component (x : string) : outcome Z :=
  let prime := 0 in
  let '(x, prime) :=
    if endswith_char quote x
    then (remove_char quote x, PRIME_DERIVATION_FLAG)
    else (x, prime) in
  let prime := if startswith "-" x then PRIME_DERIVATION_FLAG else prime in
  match py_int x with
  | Some v => Normal (Z.lor (Z.abs v) prime)
  | None => Raise (ValueError x)
  end.

(** The loop over the components, [path] being the list built so far. *)
Fixpoint expand_loop (xs : list string) (path : list Z) : outcome (list Z) :=
  match xs with
  | [] => Normal path
  | x :: rest =>
      match expand_component x with
      | Normal v => expand_loop rest (path ++ [v])
      | Raise e => Raise e
      end
  end.

Definition expand_path (n : string) : outcome (list Z) :=
  expand_loop (tail (split "/" n)) [].

Definition firmware_version (s : Session) : Z * Z * Z :=
  let f := features s in
  (major_version f, minor_version f, patch_version f).

(** [cmp] of Python 2 on integers. *)
Definition cmp (a b : Z) : Z :=
  if Z.ltb a b then -1 else if Z.eqb a b then 0 else 1.

(** [cmp] of Python 2 on triples: the first pair of unequal items decides. *)
Definition cmp_tuple (a b : Z * Z * Z) : Z :=
  let '(a1, a2, a3) := a in
  let '(b1, b2, b3) := b in
  if negb (Z.eqb a1 b1) then cmp a1 b1
  else if negb (Z.eqb a2 b2) then cmp a2 b2
  else cmp a3 b3.

(** [minor] and [patch] default to 0 at the call. *)
Definition atleast_version (s : Session) (major minor patch : Z) : Z :=
  cmp_tuple (firmware_version s) (major, minor, patch).

(** [wrapper]: the method runs, then [handler.finished()] in a final block. *)
Definition wrapper (func : method) : method :=
  fun args kwargs => try_finally (func args kwargs) handler_finished.

Definition wrapped_method_names : list string :=
  ["apply_settings"; "change_pin"; "decrypt_message";
   "get_address"; "get_public_node";
   "load_device_by_mnemonic"; "load_device_by_xprv";
   "recovery_device"; "reset_device"; "sign_message";
   "sign_tx"; "wipe_device"].

(** The loop of [wrap_methods] over a class, given as the table of its
    methods: [getattr] of a missing name raises and leaves the class as
    far as it was rewritten. *)
Fixpoint wrap_loop (names : list string) (cls : gmap string method)
  : outcome unit * gmap string method :=
  match names with
  | [] => (Normal tt, cls)
  | name :: rest =>
      match cls !! name with
      | Some func => wrap_loop rest (<[name := wrapper func]> cls)
      | None => (Raise (AttributeError name), cls)
      end
  end.

Definition wrap_methods (cls : gmap string method)
  : outcome unit * gmap string method :=
  wrap_loop wrapped_method_names cls.

Section Client.

(** The class of the client (its protocol methods, looked up by name on
    [self]), the [clear_session] of the parent class and the transport. *)
Variable cls : gmap string method.
Variable super_clear_session : M value.
Variable transport_write : response -> M value.
Variable transport_close : M value.

(** A call of the method [name] on [self]: the attribute is looked up in
    the class. *)
Definition call_method (name : string) (args : list value)
    (kwargs : list (string * value)) : M value :=
  match cls !! name with
  | Some func => func args kwargs
  | None => raise (AttributeError name)
  end.

Definition cancel : M value := transport_write Cancel.

Definition address_from_derivation (derivation : string) : M value :=
  match expand_path derivation with
  | Normal path =>
      call_method "get_address" [VStr "Bitcoin"; VList (VInt <$> path)] []
  | Raise e => raise e
  end.

Definition first_address (derivation : string) : M value :=
  address_from_derivation derivation.

Definition toggle_passphrase : M unit :=
  exec modify (set_msg_code_override (Some "passphrase")) in
  try_finally
    (let* f := get_attr features in
     let enabled := negb (passphrase_protection f) in
     exec call_method "apply_settings" []
            [("use_passphrase", VBool enabled)] in
     ret tt)
    (modify (set_msg_code_override None)).

Definition change_label (new_label : string) : M unit :=
  exec modify (set_msg_code_override (Some "label")) in
  try_finally
    (exec call_method "apply_settings" [] [("label", VStr new_label)] in
     ret tt)
    (modify (set_msg_code_override None)).

Definition change_homescreen (homescreen : string) : M unit :=
  exec modify (set_msg_code_override (Some "homescreen")) in
  try_finally
    (exec call_method "apply_settings" [] [("homescreen", VStr homescreen)] in
     ret tt)
    (modify (set_msg_code_override None)).

Definition set_pin (remove : bool) : M unit :=
  exec modify (set_msg_code_override
                 (Some (if remove then "remove pin" else "change pin"))) in
  try_finally
    (exec call_method "change_pin" [VBool remove] [] in
     ret tt)
    (modify (set_msg_code_override None)).

Definition clear_session : M unit :=
  let* me := to_str in
  exec print_error ["clear session:"; me] in
  try_except
    (exec super_clear_session in ret tt)
    (fun e =>
       exec print_error ["clear_session: ignoring error"; str_exn e] in
       ret tt).

Definition close : M unit :=
  exec print_error ["closing client"] in
  exec clear_session in
  exec transport_close in
  ret tt.

End Client.

(** ** Definitions used to state the properties *)

(** The prompt a PIN matrix request of the given type puts to the user. *)
Definition pin_prompt (type : Z) (dev : string) : string :=
  if Z.eqb type 1 then "Enter your current " ++ dev ++ " PIN:"
  else if Z.eqb type 2 then "Enter a new " ++ dev ++ " PIN:"
  else if Z.eqb type 3 then
    "Please re-enter your new " ++ dev ++ " PIN." ++ lf
    ++ "Note the numbers have been shuffled!"
  else "Please enter " ++ dev ++ " PIN".

Definition passphrase_prompt (dev : string) : string :=
  "Please enter your " ++ dev ++ " passphrase".

(** The prompt of the recovery step [k]. *)
Definition word_prompt (k : Z) (dev : string) : string :=
  "Step " ++ decimal k ++ "/24.  Enter seed word as explained on your "
  ++ dev ++ ":".

(** A component is hardened when it ends with a prime or starts with a
    minus sign. *)
Definition hardened (x : string) : bool :=
  (endswith_char quote x || startswith "-" x)%bool.

(** The numeral of a component: the primes go when it ends with one. *)
Definition numeral (x : string) : string :=
  if endswith_char quote x then remove_char quote x else x.

(** The value of one component as the specification words it: the absolute
    value of its number, with the hardening flag when it is hardened. *)
Definition component_value_spec (x : string) : outcome Z :=
  match py_int (numeral x) with
  | Some v =>
      Normal (if hardened x then Z.lor (Z.abs v) 0x80000000 else Z.abs v)
  | None => Raise (ValueError (numeral x))
  end.

Fixpoint map_outcome {A B} (f : A -> outcome B) (xs : list A)
  : outcome (list B) :=
  match xs with
  | [] => Normal []
  | x :: rest =>
      match f x with
      | Normal v =>
          match map_outcome f rest with
          | Normal vs => Normal (v :: vs)
          | Raise e => Raise e
          end
      | Raise e => Raise e
      end
  end.

(** The path as the specification words it: the first segment is dropped
    and every other one is mapped to its value, in order. *)
Definition expand_path_spec (n : string) : outcome (list Z) :=
  map_outcome component_value_spec (tail (split "/" n)).

(** The lexicographic order on version triples. *)
Definition lex_lt (a b : Z * Z * Z) : Prop :=
  let '(a1, a2, a3) := a in
  let '(b1, b2, b3) := b in
  a1 < b1 \/ (a1 = b1 /\ (a2 < b2 \/ (a2 = b2 /\ a3 < b3))).

(** How often [handler.finished()] occurs in a call log. *)
Fixpoint finished_count (log : list event) : nat :=
  match log with
  | [] => O
  | finished_call :: rest => S (finished_count rest)
  | _ :: rest => finished_count rest
  end.

(** The four operations that choose the wording of the next button
    request. *)
Inductive override_op : Type :=
  | TogglePassphrase
  | ChangeLabel (new_label : string)
  | ChangeHomescreen (homescreen : string)
  | SetPin (remove : bool).

Definition run_override_op (cls : gmap string method) (op : override_op)
  : M unit :=
  match op with
  | TogglePassphrase => toggle_passphrase cls
  | ChangeLabel new_label => change_label cls new_label
  | ChangeHomescreen homescreen => change_homescreen cls homescreen
  | SetPin remove => set_pin cls remove
  end.

(** The tag each operation is meant to set. *)
Definition override_tag (op : override_op) : string :=
  match op with
  | TogglePassphrase => "passphrase"
  | ChangeLabel _ => "label"
  | ChangeHomescreen _ => "homescreen"
  | SetPin true => "remove pin"
  | SetPin false => "change pin"
  end.

(** The method each operation is meant to call, with its positional and
    keyword arguments, on a client in state [s]. *)
Definition underlying_method (op : override_op) : string :=
  match op with
  | SetPin _ => "change_pin"
  | _ => "apply_settings"
  end.

Definition underlying_args (op : override_op) : list value :=
  match op with
  | SetPin remove => [VBool remove]
  | _ => []
  end.

Definition underlying_kwargs (op : override_op) (s : Session)
  : list (string * value) :=
  match op with
  | TogglePassphrase =>
      [("use_passphrase", VBool (negb (passphrase_protection (features s))))]
  | ChangeLabel new_label => [("label", VStr new_label)]
  | ChangeHomescreen homescreen => [("homescreen", VStr homescreen)]
  | SetPin _ => []
  end.

(** The outcome of a body whose value is dropped. *)
Definition discard {A} (r : outcome A) : outcome unit :=
  match r with
  | Normal _ => Normal tt
  | Raise e => Raise e
  end.

(** The name of the client in the log: label, slash, device id. *)
Definition client_name (s : Session) : string :=
  label s ++ "/" ++ device_id (features s).

(** The client once [clear_session] has logged its first line. *)
Definition announced (s : Session) : Session :=
  record_call (print_error_call ["clear session:"; client_name s]) s.

(** How often the character [c] occurs in [s]. *)
Fixpoint count_char (c : ascii) (s : string) : nat :=
  match s with
  | EmptyString => O
  | String a r => ((if Ascii.eqb a c then 1 else 0) + count_char c r)%nat
  end.

(** A non-empty run of decimal digits. *)
Fixpoint all_digits (d : string) : bool :=
  match d with
  | EmptyString => false
  | String a r =>
      match digit_value a with
      | Some _ => match r with EmptyString => true | _ => all_digits r end
      | None => false
      end
  end.

(** The requests of one exchange answered in order, as the base client
    does while a command is in flight: the first callback that raises
    ends the exchange. *)
Fixpoint answer_all (rs : list request) : M (list response) :=
  match rs with
  | [] => ret []
  | r :: rest =>
      let* a := callback r in
      let* others := answer_all rest in
      ret (a :: others)
  end.

(** The kinds of answer each kind of request admits. *)
Definition answers (r : request) (a : response) : bool :=
  match r, a with
  | ButtonRequest _, ButtonAck => true
  | PinMatrixRequest _, (Cancel | PinMatrixAck _) => true
  | PassphraseRequest, (Cancel | PassphraseAck _) => true
  | WordRequest, WordAck _ => true
  | CharacterRequest _, (Cancel | CharacterAck _) => true
  | _, _ => false
  end.

(** The text a button request shows while the operation [op] runs. *)
Definition override_text (op : override_op) (dev : string) : string :=
  match op with
  | TogglePassphrase => "Confirm on " ++ dev ++ " device to continue"
  | ChangeLabel _ =>
      "Confirm label change on " ++ dev ++ " device to continue"
  | ChangeHomescreen _ =>
      "Confirm home screen change on " ++ dev ++ " device to continue"
  | SetPin true =>
      "Confirm removal of PIN on " ++ dev ++ " device to continue"
  | SetPin false => "Confirm PIN change on " ++ dev ++ " device to continue"
  end.

(** A method of the device whose exchange is a single button request. *)
Definition button_exchange (code : Z) : method :=
  fun _ _ => exec callback (ButtonRequest code) in ret VNone.

(** ** A concrete client, used to run the definitions *)

Definition demo_handler : Handler :=
  {| get_pin := fun _ _ => Some "1234";
     get_passphrase := fun _ _ => Some "";
     get_word := fun _ _ => "abandon";
     get_char := fun _ _ => None |}.

Definition demo_features : Features :=
  {| label_ := "savings"; device_id := "A1B2"; initialized := true;
     passphrase_protection := false;
     major_version := 1; minor_version := 3; patch_version := 4 |}.

Definition demo_session : Session :=
  {| device := "TREZOR"; handler := demo_handler;
     types := {| Failure_PinCancelled := 6; Failure_ActionCancelled := 4 |};
     msg_code_override := None; step := Some 0;
     features := demo_features; calls := [] |}.

(** A class with every listed method: each returns [None], except
    [wipe_device], which raises. *)
Definition demo_class : gmap string method :=
  <["wipe_device" := fun _ _ => raise (RuntimeError "Device is gone")]>
    (list_to_map
       ((fun name => (name, (fun _ _ => ret VNone) : method))
          <$> wrapped_method_names)).

(** ** Properties of the callbacks *)

Lemma bind_unfold {A B} (c : M A) (k : A -> M B) (s : Session) :
  bind c k s =
    match c s with
    | (Normal a, s') => k a s'
    | (Raise e, s') => (Raise e, s')
    end.
Proof. reflexivity. Qed.

(** C1: a Failure report whose code is one of the two cancellation codes
    raises [SilentException], and any other code raises a [RuntimeError]
    whose message is the device's text; the session, and so the call log
    of what was shown or logged, is left as it was. *)
Theorem callback_Failure_classifies
    (s : Session) (code : Z) (message : string) :
  ((code = Failure_PinCancelled (types s)
    \/ code = Failure_ActionCancelled (types s)) ->
   callback (Failure code message) s = (Raise SilentException, s))
  /\ (code <> Failure_PinCancelled (types s) ->
      code <> Failure_ActionCancelled (types s) ->
      callback (Failure code message) s = (Raise (RuntimeError message), s)).
Proof.
  unfold callback, callback_Failure, bind, get_attr, raise; simpl.
  split.
  - intros [-> | ->].
    + by rewrite Z.eqb_refl.
    + by rewrite Z.eqb_refl, orb_true_r.
  - intros Hpin Haction.
    apply Z.eqb_neq in Hpin, Haction.
    by rewrite Hpin, Haction.
Qed.

Example callback_Failure_action_cancelled :
  callback (Failure 4 "Action cancelled by user") demo_session
  = (Raise SilentException, demo_session).
Proof. reflexivity. Qed.

Example callback_Failure_other :
  callback (Failure 9 "Firmware error") demo_session
  = (Raise (RuntimeError "Firmware error"), demo_session).
Proof. reflexivity. Qed.

(** *** Button requests *)

Lemma messages_default :
  messages !! KStr "default" = Some "Check %s device to continue".
Proof. vm_compute. reflexivity. Qed.

Lemma messages_entry (k : key) (tmpl : string) :
  messages !! k = Some tmpl -> (k, tmpl) ∈ message_items.
Proof. apply elem_of_list_to_map_2. Qed.

(** Every template of the table has the single directive [%s], followed by
    the same words, and formats with the device name in its place. *)
Lemma template_formats (k : key) (tmpl dev : string) :
  messages !! k = Some tmpl ->
  exists pre,
    tmpl = pre ++ "%s device to continue"
    /\ pyformat tmpl [FStr dev] = Some (pre ++ dev ++ " device to continue").
Proof.
  intros Hk. apply messages_entry in Hk.
  unfold message_items, gettext in Hk.
  rewrite !elem_of_cons, elem_of_nil in Hk.
  destruct Hk as [Hk|[Hk|[Hk|[Hk|[Hk|[Hk|[Hk|[Hk|[Hk|[Hk|[]]]]]]]]]]];
    injection Hk as -> ->.
  - exists "Confirm transaction outputs on ". by split.
  - exists "Confirm transaction fee on ". by split.
  - exists "Confirm message to sign on ". by split.
  - exists "Confirm address on ". by split.
  - exists "Confirm PIN change on ". by split.
  - exists "Check ". by split.
  - exists "Confirm home screen change on ". by split.
  - exists "Confirm label change on ". by split.
  - exists "Confirm removal of PIN on ". by split.
  - exists "Confirm on ". by split.
Qed.

(** The codes that have a template of their own. *)
Lemma messages_code_lookup (code : Z) :
  messages !! KInt code = None <-> code ∉ [3; 8; 7; 10].
Proof.
  unfold messages. rewrite <- not_elem_of_list_to_map.
  unfold message_items; simpl.
  rewrite !not_elem_of_cons.
  split.
  - intros (H3 & H8 & H7 & H10 & _).
    repeat split; try congruence. apply not_elem_of_nil.
  - intros (H3 & H8 & H7 & H10 & _).
    repeat split; try congruence; try discriminate. apply not_elem_of_nil.
Qed.

(** The tags the override-setting operations assign are true as Python
    values and have a template. *)
Lemma override_tags_in_table (tag : string) :
  tag ∈ ["passphrase"; "label"; "homescreen"; "remove pin"; "change pin"] ->
  truthy tag = true /\ is_Some (messages !! KStr tag).
Proof.
  rewrite !elem_of_cons, elem_of_nil.
  intros [->|[->|[->|[->|[->|[]]]]]]; split; try reflexivity;
    vm_compute; eauto.
Qed.

Lemma truthy_nonempty (t : string) : t <> "" -> truthy t = true.
Proof.
  intros Ht. unfold truthy. apply negb_true_iff, String.eqb_neq. exact Ht.
Qed.

Lemma override_tag_template (op : override_op) :
  override_tag op <> ""
  /\ exists tmpl, messages !! KStr (override_tag op) = Some tmpl.
Proof.
  destruct op as [| new_label | homescreen | [|]]; (split; [discriminate|]);
    eexists; vm_compute; reflexivity.
Qed.

(** What a button request does, given the template the lookup selects. *)
Lemma callback_ButtonRequest_run (s : Session) (code : Z) (text : string) :
  pyformat (default "Check %s device to continue"
              (messages !! override_or_code (msg_code_override s) code))
           [FStr (device s)] = Some text ->
  callback_ButtonRequest code s
  = (Normal ButtonAck, record_call (show_message_call text) s).
Proof.
  intros Hfmt.
  unfold callback_ButtonRequest, getitem.
  rewrite messages_default.
  unfold bind, get_attr, ret, format; simpl.
  by rewrite Hfmt.
Qed.

(** The text shown under an override tag that has a template. *)
Lemma callback_ButtonRequest_override_run
    (s : Session) (code : Z) (tag tmpl : string) :
  msg_code_override s = Some tag -> tag <> "" ->
  messages !! KStr tag = Some tmpl ->
  exists text,
    pyformat tmpl [FStr (device s)] = Some text
    /\ callback (ButtonRequest code) s
       = (Normal ButtonAck, record_call (show_message_call text) s).
Proof.
  intros Hset Htag Htmpl.
  destruct (template_formats _ _ (device s) Htmpl) as (pre & _ & Hfmt).
  eexists. split; [exact Hfmt|].
  apply callback_ButtonRequest_run.
  rewrite Hset. simpl. rewrite (truthy_nonempty _ Htag), Htmpl. exact Hfmt.
Qed.

(** C4: a button request shows the template of the override mode when one
    is set, whatever the request's code, and each tag an override-setting
    operation assigns has its template; without an override it shows the
    template of the request's code, or the generic template when the code
    has none; the text is the template formatted with the device name, and
    the answer is always [ButtonAck]. *)
Theorem callback_ButtonRequest_text (s : Session) (code : Z) :
  (forall op,
      msg_code_override s = Some (override_tag op) ->
      exists tmpl text,
        messages !! KStr (override_tag op) = Some tmpl
        /\ pyformat tmpl [FStr (device s)] = Some text
        /\ callback (ButtonRequest code) s
           = (Normal ButtonAck, record_call (show_message_call text) s))
  /\ (forall tag tmpl,
      msg_code_override s = Some tag -> tag <> "" ->
      messages !! KStr tag = Some tmpl ->
      exists text,
        pyformat tmpl [FStr (device s)] = Some text
        /\ callback (ButtonRequest code) s
           = (Normal ButtonAck, record_call (show_message_call text) s))
  /\ (forall tmpl,
         msg_code_override s = None ->
         messages !! KInt code = Some tmpl ->
         exists text,
           pyformat tmpl [FStr (device s)] = Some text
           /\ callback (ButtonRequest code) s
              = (Normal ButtonAck, record_call (show_message_call text) s))
  /\ (msg_code_override s = None ->
      messages !! KInt code = None ->
      callback (ButtonRequest code) s
      = (Normal ButtonAck,
         record_call
           (show_message_call ("Check " ++ device s ++ " device to continue"))
           s))
  /\ (exists text,
         callback (ButtonRequest code) s
         = (Normal ButtonAck, record_call (show_message_call text) s)).
Proof.
  split; [|split; [|split; [|split]]].
  - intros op Hset.
    destruct (override_tag_template op) as (Htag & tmpl & Htmpl).
    destruct (callback_ButtonRequest_override_run s code _ _ Hset Htag Htmpl)
      as (text & Hfmt & Hrun).
    exists tmpl, text. auto.
  - intros tag tmpl. apply callback_ButtonRequest_override_run.
  - intros tmpl Hunset Htmpl.
    destruct (template_formats _ _ (device s) Htmpl) as (pre & _ & Hfmt).
    eexists. split; [exact Hfmt|].
    apply callback_ButtonRequest_run.
    rewrite Hunset. simpl. rewrite Htmpl. exact Hfmt.
  - intros Hunset Hnone.
    apply callback_ButtonRequest_run.
    rewrite Hunset. simpl. rewrite Hnone. reflexivity.
  - destruct (messages !! override_or_code (msg_code_override s) code)
      as [tmpl|] eqn:Hlook.
    + destruct (template_formats _ _ (device s) Hlook) as (pre & _ & Hfmt).
      eexists. apply callback_ButtonRequest_run. rewrite Hlook. exact Hfmt.
    + eexists. apply callback_ButtonRequest_run. rewrite Hlook. reflexivity.
Qed.

Example callback_ButtonRequest_override :
  callback (ButtonRequest 3) (set_msg_code_override (Some "label") demo_session)
  = (Normal ButtonAck,
     record_call
       (show_message_call "Confirm label change on TREZOR device to continue")
       (set_msg_code_override (Some "label") demo_session)).
Proof. vm_compute. reflexivity. Qed.

Example callback_ButtonRequest_unknown_code :
  callback (ButtonRequest 99) demo_session
  = (Normal ButtonAck,
     record_call (show_message_call "Check TREZOR device to continue")
       demo_session).
Proof. vm_compute. reflexivity. Qed.

(** *** Prompts: PIN, passphrase, character *)

Lemma callback_PinMatrixRequest_run (s : Session) (type : Z) :
  callback_PinMatrixRequest type s
  = (Normal match get_pin (handler s) (calls s)
                    (pin_prompt type (device s)) with
            | Some p => if truthy p then PinMatrixAck p else Cancel
            | None => Cancel
            end,
     record_call (get_pin_call (pin_prompt type (device s))) s).
Proof.
  unfold callback_PinMatrixRequest, pin_prompt, gettext.
  destruct (Z.eqb type 1);
    [|destruct (Z.eqb type 2); [|destruct (Z.eqb type 3)]];
    unfold bind, get_attr, format, handler_get_pin, ret; simpl;
    (destruct (get_pin _ _ _) as [p|]; [destruct (truthy p)|]; reflexivity).
Qed.

Lemma callback_PassphraseRequest_run (s : Session) :
  callback_PassphraseRequest s
  = (Normal match get_passphrase (handler s) (calls s)
                    (passphrase_prompt (device s)) with
            | Some p => PassphraseAck p
            | None => Cancel
            end,
     record_call (get_passphrase_call (passphrase_prompt (device s))) s).
Proof.
  unfold callback_PassphraseRequest, passphrase_prompt, gettext.
  unfold bind, get_attr, format, handler_get_passphrase, ret; simpl.
  destruct (get_passphrase _ _ _); reflexivity.
Qed.

Lemma callback_CharacterRequest_run (s : Session) (payload : value) :
  callback_CharacterRequest payload s
  = (Normal match get_char (handler s) (calls s) payload with
            | Some (f :: fs) => CharacterAck (f :: fs)
            | _ => Cancel
            end,
     record_call (get_char_call payload) s).
Proof.
  unfold callback_CharacterRequest, bind, handler_get_char, ret; simpl.
  destruct (get_char _ _ _) as [[|f fs]|]; reflexivity.
Qed.

(** C3, as the code has it: for a PIN request a reply of none or of the
    empty string is answered with [Cancel], any other PIN with
    [PinMatrixAck] carrying it; for a character request a reply of none or
    of no fields is answered with [Cancel], any other with [CharacterAck]
    carrying the fields; for a passphrase request only a reply of none is
    answered with [Cancel], and every passphrase, the empty one included,
    with [PassphraseAck] carrying it.  The answer is the single message
    returned, and the only call made is the prompt itself. *)
Theorem prompt_reply_answer (s : Session) :
  (forall type,
      let prompt := pin_prompt type (device s) in
      let reply := get_pin (handler s) (calls s) prompt in
      (callback (PinMatrixRequest type) s).2
        = record_call (get_pin_call prompt) s
      /\ (reply = None \/ reply = Some "" ->
          (callback (PinMatrixRequest type) s).1 = Normal Cancel)
      /\ (forall pin, reply = Some pin -> pin <> "" ->
          (callback (PinMatrixRequest type) s).1 = Normal (PinMatrixAck pin)))
  /\ (let prompt := passphrase_prompt (device s) in
      let reply := get_passphrase (handler s) (calls s) prompt in
      (callback PassphraseRequest s).2
        = record_call (get_passphrase_call prompt) s
      /\ (reply = None -> (callback PassphraseRequest s).1 = Normal Cancel)
      /\ (forall passphrase, reply = Some passphrase ->
          (callback PassphraseRequest s).1 = Normal (PassphraseAck passphrase)))
  /\ (forall payload,
      let reply := get_char (handler s) (calls s) payload in
      (callback (CharacterRequest payload) s).2
        = record_call (get_char_call payload) s
      /\ (reply = None \/ reply = Some [] ->
          (callback (CharacterRequest payload) s).1 = Normal Cancel)
      /\ (forall fields, reply = Some fields -> fields <> [] ->
          (callback (CharacterRequest payload) s).1
          = Normal (CharacterAck fields))).
Proof.
  split; [|split].
  - intros type prompt reply. subst prompt reply. simpl.
    rewrite callback_PinMatrixRequest_run. simpl.
    split; [reflexivity|]. split.
    + intros [-> | ->]; reflexivity.
    + intros pin -> Hpin. by rewrite (truthy_nonempty _ Hpin).
  - intros prompt reply. subst prompt reply. simpl.
    rewrite callback_PassphraseRequest_run. simpl.
    split; [reflexivity|]. split.
    + by intros ->.
    + by intros passphrase ->.
  - intros payload reply. subst reply. simpl.
    rewrite callback_CharacterRequest_run. simpl.
    split; [reflexivity|]. split.
    + intros [-> | ->]; reflexivity.
    + intros [|f fs] -> Hfields; [done | reflexivity].
Qed.

(** C3, as stated, fails for the passphrase prompt: the handler of the demo
    client replies with the empty passphrase, and the request is answered
    with a [PassphraseAck] carrying it, not with [Cancel]. *)
Lemma passphrase_empty_reply_acknowledged :
  get_passphrase (handler demo_session) (calls demo_session)
    (passphrase_prompt (device demo_session)) = Some ""
  /\ (callback PassphraseRequest demo_session).1 = Normal (PassphraseAck "")
  /\ (callback PassphraseRequest demo_session).1 <> Normal Cancel.
Proof. repeat split. discriminate. Qed.

Example callback_PinMatrixRequest_empty_pin :
  (callback (PinMatrixRequest 1)
     (record_call finished_call
        {| device := "TREZOR";
           handler := {| get_pin := fun _ _ => Some "";
                         get_passphrase := fun _ _ => None;
                         get_word := fun _ _ => "";
                         get_char := fun _ _ => Some [] |};
           types := types demo_session; msg_code_override := None;
           step := None; features := demo_features; calls := [] |})).1
  = Normal Cancel.
Proof. reflexivity. Qed.

(** *** Word requests *)

Lemma pyformat_word_prompt (k : Z) (dev : string) :
  pyformat "Step %d/24.  Enter seed word as explained on your %s:"
    [FInt k; FStr dev] = Some (word_prompt k dev).
Proof. reflexivity. Qed.

(** C6: a word request, with the step counter at [n], sets it to [n + 1],
    prompts with the text of step [n + 1] of 24 and answers with a
    [WordAck] carrying the word the handler returns; the answer is never
    [Cancel]. *)
Theorem callback_WordRequest_steps (s : Session) (n : Z) :
  step s = Some n ->
  callback WordRequest s
  = (Normal (WordAck (get_word (handler s) (calls s)
                        (word_prompt (n + 1) (device s)))),
     record_call (get_word_call (word_prompt (n + 1) (device s)))
       (set_step (Some (n + 1)) s))
  /\ step (callback WordRequest s).2 = Some (n + 1)
  /\ (callback WordRequest s).1 <> Normal Cancel.
Proof.
  intros Hstep.
  assert (callback WordRequest s
          = (Normal (WordAck (get_word (handler s) (calls s)
                                (word_prompt (n + 1) (device s)))),
             record_call (get_word_call (word_prompt (n + 1) (device s)))
               (set_step (Some (n + 1)) s))) as Hrun.
  { unfold callback, callback_WordRequest, bind, get_attr; simpl.
    rewrite Hstep. reflexivity. }
  rewrite Hrun. simpl. repeat split. discriminate.
Qed.

Lemma callback_WordRequest_steps_witness :
  step demo_session = Some 0
  /\ callback WordRequest demo_session
     = (Normal (WordAck "abandon"),
        record_call
          (get_word_call
             "Step 1/24.  Enter seed word as explained on your TREZOR:")
          (set_step (Some 1) demo_session)).
Proof.
  split; [reflexivity|].
  exact (proj1 (callback_WordRequest_steps demo_session 0 eq_refl)).
Defined.

(** Without a step counter on the client the increment raises. *)
Example callback_WordRequest_no_step :
  (callback WordRequest (set_step None demo_session)).1
  = Raise (AttributeError "step").
Proof. reflexivity. Qed.

(** ** Path expansion *)

Lemma expand_component_spec (x : string) :
  expand_component x = component_value_spec x.
Proof.
  unfold expand_component, component_value_spec, hardened, numeral.
  destruct (endswith_char quote x); simpl.
  - destruct (startswith "-" (remove_char quote x)); reflexivity.
  - destruct (startswith "-" x); [reflexivity|].
    destruct (py_int x) as [v|]; [|reflexivity].
    by rewrite Z.lor_0_r.
Qed.

Lemma expand_loop_spec (xs : list string) (path : list Z) :
  expand_loop xs path
  = match map_outcome component_value_spec xs with
    | Normal vs => Normal (path ++ vs)%list
    | Raise e => Raise e
    end.
Proof.
  revert path. induction xs as [|x rest IH]; intros path; simpl.
  - by rewrite app_nil_r.
  - rewrite expand_component_spec.
    destruct (component_value_spec x) as [v|e]; [|reflexivity].
    rewrite IH.
    destruct (map_outcome component_value_spec rest) as [vs|e];
      [|reflexivity].
    by rewrite <- app_assoc.
Qed.

(** The flag is bit 31: a hardened value has it set, and below the flag
    the value keeps the bits of the number. *)
Lemma hardened_value_bits (v : Z) :
  Z.testbit (Z.lor (Z.abs v) PRIME_DERIVATION_FLAG) 31 = true
  /\ forall i, 0 <= i < 31 ->
       Z.testbit (Z.lor (Z.abs v) PRIME_DERIVATION_FLAG) i
       = Z.testbit (Z.abs v) i.
Proof.
  split.
  - rewrite Z.lor_spec. replace (Z.testbit PRIME_DERIVATION_FLAG 31) with true
      by reflexivity. apply orb_true_r.
  - intros i Hi. rewrite Z.lor_spec.
    change PRIME_DERIVATION_FLAG with (2 ^ 31).
    rewrite Z.pow2_bits_eqb by lia.
    replace (Z.eqb 31 i) with false by (symmetry; apply Z.eqb_neq; lia).
    apply orb_false_r.
Qed.

Lemma map_outcome_Forall2 {A B} (f : A -> outcome B) (xs : list A)
    (vs : list B) :
  map_outcome f xs = Normal vs -> Forall2 (fun x v => f x = Normal v) xs vs.
Proof.
  revert vs. induction xs as [|x rest IH]; intros vs; simpl.
  - intros [= <-]. constructor.
  - destruct (f x) as [v|e] eqn:Hx; [|discriminate].
    destruct (map_outcome f rest) as [vs'|e]; [|discriminate].
    intros [= <-]. constructor; auto.
Qed.

Lemma component_value_spec_inv (x : string) (v : Z) :
  component_value_spec x = Normal v ->
  exists k,
    py_int (numeral x) = Some k
    /\ v = if hardened x then Z.lor (Z.abs k) 0x80000000 else Z.abs k.
Proof.
  unfold component_value_spec.
  destruct (py_int (numeral x)) as [k|]; [|discriminate].
  intros [= <-]. eauto.
Qed.

Lemma expand_path_spec_eq (n : string) : expand_path n = expand_path_spec n.
Proof.
  unfold expand_path, expand_path_spec.
  rewrite expand_loop_spec.
  by destruct (map_outcome component_value_spec (tail (split "/" n))).
Qed.

(** C7: [expand_path] drops the first segment of the slash-separated path
    and maps each other component to the absolute value of its number,
    with [0x80000000] set when the component ends with a prime or starts
    with a minus sign; a component that is not a number raises.  On
    [m/0/1'/-2] the result is [0, 0x80000001, 0x80000002]. *)
Theorem expand_path_refines_spec (n : string) :
  expand_path n = expand_path_spec n
  /\ (forall path,
        expand_path n = Normal path ->
        Forall2
          (fun x v =>
             exists k,
               py_int (numeral x) = Some k
               /\ v = if hardened x
                      then Z.lor (Z.abs k) 0x80000000 else Z.abs k)
          (tail (split "/" n)) path)
  /\ expand_path "m/0/1'/-2" = Normal [0; 0x80000001; 0x80000002].
Proof.
  split; [apply expand_path_spec_eq|]. split; [|reflexivity].
  intros path. rewrite expand_path_spec_eq. unfold expand_path_spec.
  intros Hmap. apply map_outcome_Forall2 in Hmap.
  eapply Forall2_impl; [exact Hmap|].
  intros x v. apply component_value_spec_inv.
Qed.

Example expand_path_docstring :
  expand_path "x/0/-1/1'" = Normal [0; 0x80000001; 0x80000001].
Proof. reflexivity. Qed.

Example expand_path_not_a_number :
  expand_path "m/0//1" = Raise (ValueError "").
Proof. reflexivity. Qed.

(** ** Firmware version *)

Lemma cmp_spec (a b : Z) :
  (cmp a b = -1 <-> a < b) /\ (cmp a b = 0 <-> a = b)
  /\ (cmp a b = 1 <-> b < a).
Proof.
  unfold cmp.
  destruct (Z.ltb_spec a b); [|destruct (Z.eqb_spec a b)]; lia.
Qed.

Lemma triple_eq (a1 a2 a3 b1 b2 b3 : Z) :
  (a1, a2, a3) = (b1, b2, b3) <-> a1 = b1 /\ a2 = b2 /\ a3 = b3.
Proof.
  split.
  - intros [= -> -> ->]. auto.
  - intros (-> & -> & ->). reflexivity.
Qed.

Lemma cmp_tuple_spec (a b : Z * Z * Z) :
  (cmp_tuple a b = -1 <-> lex_lt a b)
  /\ (cmp_tuple a b = 0 <-> a = b)
  /\ (cmp_tuple a b = 1 <-> lex_lt b a).
Proof.
  destruct a as [[a1 a2] a3], b as [[b1 b2] b3].
  unfold cmp_tuple, lex_lt. rewrite triple_eq.
  pose proof (cmp_spec a1 b1) as (H1l & H1e & H1g).
  pose proof (cmp_spec a2 b2) as (H2l & H2e & H2g).
  pose proof (cmp_spec a3 b3) as (H3l & H3e & H3g).
  destruct (Z.eqb_spec a1 b1) as [E1|N1]; simpl;
    [destruct (Z.eqb_spec a2 b2) as [E2|N2]; simpl|].
  - rewrite H3l, H3e, H3g.
    clear H1l H1e H1g H2l H2e H2g H3l H3e H3g. lia.
  - rewrite H2l, H2e, H2g.
    clear H1l H1e H1g H2l H2e H2g H3l H3e H3g. lia.
  - rewrite H1l, H1e, H1g.
    clear H1l H1e H1g H2l H2e H2g H3l H3e H3g. lia.
Qed.

(** C9: [atleast_version] is the three-way comparison of the firmware
    version triple of the device with the given triple in lexicographic
    order: -1 when the device's is less, 0 when they are equal, 1 when it
    is greater. *)
Theorem atleast_version_ordering (s : Session) (major minor patch : Z) :
  firmware_version s
  = (major_version (features s), minor_version (features s),
     patch_version (features s))
  /\ (atleast_version s major minor patch = -1
      <-> lex_lt (firmware_version s) (major, minor, patch))
  /\ (atleast_version s major minor patch = 0
      <-> firmware_version s = (major, minor, patch))
  /\ (atleast_version s major minor patch = 1
      <-> lex_lt (major, minor, patch) (firmware_version s))
  /\ (atleast_version s major minor patch = -1
      \/ atleast_version s major minor patch = 0
      \/ atleast_version s major minor patch = 1).
Proof.
  unfold atleast_version.
  pose proof (cmp_tuple_spec (firmware_version s) (major, minor, patch))
    as (Hl & He & Hg).
  split; [reflexivity|]. split; [exact Hl|]. split; [exact He|].
  split; [exact Hg|].
  unfold cmp_tuple, firmware_version, cmp.
  repeat match goal with
         | |- context [Z.eqb ?a ?b] => destruct (Z.eqb a b); simpl
         | |- context [Z.ltb ?a ?b] => destruct (Z.ltb a b); simpl
         end; tauto.
Qed.

Example atleast_version_newer :
  atleast_version demo_session 1 3 3 = 1.
Proof. reflexivity. Qed.

Example atleast_version_older :
  atleast_version demo_session 1 4 0 = -1.
Proof. reflexivity. Qed.

(** ** The method wrapper *)

Lemma finished_count_app (l1 l2 : list event) :
  finished_count (l1 ++ l2)%list = (finished_count l1 + finished_count l2)%nat.
Proof.
  induction l1 as [|e l1 IH]; simpl; [reflexivity|].
  destruct e; simpl; rewrite IH; reflexivity.
Qed.

(** A final block that only signals completion keeps the outcome of the
    body and adds the one call to its state. *)
Lemma wrapper_run (func : method) (args : list value)
    (kwargs : list (string * value)) (s : Session) :
  wrapper func args kwargs s
  = ((func args kwargs s).1,
     record_call finished_call (func args kwargs s).2).
Proof.
  unfold wrapper, try_finally, handler_finished, modify.
  by destruct (func args kwargs s) as [r s1].
Qed.

Lemma wrapped_method_names_NoDup : NoDup wrapped_method_names.
Proof.
  apply (bool_decide_unpack (NoDup wrapped_method_names)).
  vm_compute. exact I.
Qed.

(** The class after the loop: a listed name holds the wrapped method, any
    other name holds what it held. *)
Lemma wrap_loop_lookup (names : list string) :
  NoDup names ->
  forall (cls cls' : gmap string method) (name : string),
    wrap_loop names cls = (Normal tt, cls') ->
    cls' !! name
    = if decide (name ∈ names) then wrapper <$> cls !! name else cls !! name.
Proof.
  induction 1 as [|first rest Hfresh Hnodup IH]; intros cls cls' name;
    cbn [wrap_loop].
  - intros [= <-]. case_decide as Hin; [|reflexivity].
    by apply elem_of_nil in Hin.
  - destruct (cls !! first) as [func|] eqn:Hfirst; [|discriminate].
    intros Hrest. rewrite (IH _ _ name Hrest).
    destruct (decide (name = first)) as [->|Hne].
    + rewrite (decide_False (P := first ∈ rest)) by exact Hfresh.
      rewrite (decide_True (P := first ∈ first :: rest))
        by apply list_elem_of_here.
      by rewrite lookup_insert_eq, Hfirst.
    + rewrite lookup_insert_ne by congruence.
      repeat case_decide; try reflexivity.
      * exfalso. apply H0. by apply list_elem_of_further.
      * exfalso. apply elem_of_cons in H0 as [?|?]; tauto.
Qed.

(** The loop succeeds on a class that has every listed method. *)
Lemma wrap_loop_succeeds (names : list string) :
  forall cls : gmap string method,
    (forall name, name ∈ names -> is_Some (cls !! name)) ->
    (wrap_loop names cls).1 = Normal tt.
Proof.
  induction names as [|first rest IH]; intros cls Hall; simpl; [reflexivity|].
  destruct (Hall first) as [func Hfirst]; [apply list_elem_of_here|].
  rewrite Hfirst. apply IH. intros name Hin.
  destruct (decide (name = first)) as [->|Hne].
  - rewrite lookup_insert_eq. eauto.
  - rewrite lookup_insert_ne by congruence.
    apply Hall. by apply list_elem_of_further.
Qed.

(** A missing method stops the loop with an [AttributeError]. *)
Lemma wrap_methods_missing (cls : gmap string method) :
  cls !! "apply_settings" = None ->
  wrap_methods cls = (Raise (AttributeError "apply_settings"), cls).
Proof. intros Hnone. unfold wrap_methods; simpl. by rewrite Hnone. Qed.

Lemma wrap_methods_lookup (cls cls' : gmap string method) (name : string) :
  wrap_methods cls = (Normal tt, cls') ->
  cls' !! name
  = if decide (name ∈ wrapped_method_names)
    then wrapper <$> cls !! name else cls !! name.
Proof. apply wrap_loop_lookup, wrapped_method_names_NoDup. Qed.

Lemma call_method_found (cls : gmap string method) (name : string)
    (func : method) (args : list value) (kwargs : list (string * value))
    (s : Session) :
  cls !! name = Some func ->
  call_method cls name args kwargs s = func args kwargs s.
Proof. intros Hfunc. unfold call_method. by rewrite Hfunc. Qed.

Lemma call_method_missing (cls : gmap string method) (name : string)
    (args : list value) (kwargs : list (string * value)) (s : Session) :
  cls !! name = None ->
  call_method cls name args kwargs s = (Raise (AttributeError name), s).
Proof. intros Hnone. unfold call_method. by rewrite Hnone. Qed.

(** C2: after [wrap_methods], a call of any of the listed operations runs
    the underlying method and then [handler.finished()] exactly once: the
    call log is the one the method left followed by the single completion
    call, whatever the outcome of the method, and when the method itself
    does not signal completion the count of completion calls grows by
    one. *)
Theorem wrapped_call_finishes_once
    (cls cls' : gmap string method) (name : string) (func : method)
    (args : list value) (kwargs : list (string * value)) (s : Session) :
  name ∈ wrapped_method_names ->
  wrap_methods cls = (Normal tt, cls') ->
  cls !! name = Some func ->
  finished_count (calls (func args kwargs s).2) = finished_count (calls s) ->
  calls (call_method cls' name args kwargs s).2
    = (calls (func args kwargs s).2 ++ [finished_call])%list
  /\ finished_count (calls (call_method cls' name args kwargs s).2)
     = S (finished_count (calls s))
  /\ (call_method cls' name args kwargs s).1 = (func args kwargs s).1.
Proof.
  intros Hlisted Hwrap Hfunc Hquiet.
  pose proof (wrap_methods_lookup _ _ name Hwrap) as Hlook.
  rewrite decide_True, Hfunc in Hlook by exact Hlisted.
  rewrite (call_method_found cls' name (wrapper func) args kwargs s Hlook).
  rewrite wrapper_run. simpl.
  split; [reflexivity|]. split; [|reflexivity].
  rewrite finished_count_app, Hquiet. simpl. lia.
Qed.

(** C10: the wrapped call has the outcome of the underlying method, the
    value it returns or the exception it raises, and its state is the one
    the method left with the single completion call added to the call log
    and nothing else changed; [wrap_methods] rewrites the listed names
    only. *)
Theorem wrapper_transparent
    (func : method) (args : list value) (kwargs : list (string * value))
    (s : Session) :
  wrapper func args kwargs s
  = ((func args kwargs s).1,
     record_call finished_call (func args kwargs s).2)
  /\ (forall v s1, func args kwargs s = (Normal v, s1) ->
        wrapper func args kwargs s
        = (Normal v, record_call finished_call s1))
  /\ (forall e s1, func args kwargs s = (Raise e, s1) ->
        wrapper func args kwargs s
        = (Raise e, record_call finished_call s1))
  /\ (let after := (func args kwargs s).2 in
      let final := (wrapper func args kwargs s).2 in
      device final = device after
      /\ msg_code_override final = msg_code_override after
      /\ step final = step after
      /\ features final = features after
      /\ calls final = (calls after ++ [finished_call])%list)
  /\ (forall (cls cls' : gmap string method) (name : string),
        wrap_methods cls = (Normal tt, cls') ->
        cls' !! name
        = if decide (name ∈ wrapped_method_names)
          then wrapper <$> cls !! name else cls !! name).
Proof.
  split; [apply wrapper_run|].
  split; [by intros v s1 Hrun; rewrite wrapper_run, Hrun|].
  split; [by intros e s1 Hrun; rewrite wrapper_run, Hrun|].
  split; [by rewrite wrapper_run|].
  intros cls cls' name. apply wrap_methods_lookup.
Qed.

Lemma wrapped_call_finishes_once_witness :
  calls (call_method (wrap_methods demo_class).2 "sign_tx" [] [] demo_session).2
    = [finished_call]
  /\ finished_count
       (calls (call_method (wrap_methods demo_class).2 "sign_tx" [] []
                 demo_session).2) = 1%nat
  /\ (call_method (wrap_methods demo_class).2 "sign_tx" [] [] demo_session).1
     = Normal VNone.
Proof.
  apply (wrapped_call_finishes_once demo_class (wrap_methods demo_class).2
           "sign_tx" (fun _ _ => ret VNone) [] [] demo_session).
  - unfold wrapped_method_names. set_solver.
  - vm_compute. reflexivity.
  - vm_compute. reflexivity.
  - reflexivity.
Defined.

Example wrapped_call_raising :
  call_method (wrap_methods demo_class).2 "wipe_device" [] [] demo_session
  = (Raise (RuntimeError "Device is gone"),
     record_call finished_call demo_session).
Proof. vm_compute. reflexivity. Qed.

(** ** Operations that set the message override *)

(** An operation is: set the tag, make the call, clear the tag. *)
Lemma run_override_op_unfold
    (cls : gmap string method) (op : override_op) (s : Session) :
  run_override_op cls op s
  = let during := set_msg_code_override (Some (override_tag op)) s in
    let r := call_method cls (underlying_method op) (underlying_args op)
               (underlying_kwargs op s) during in
    (discard r.1, set_msg_code_override None r.2).
Proof.
  destruct op as [| new_label | homescreen | [|]]; simpl;
    unfold toggle_passphrase, change_label, change_homescreen, set_pin;
    unfold bind, modify, try_finally, get_attr, ret; simpl;
    match goal with
    | |- context [call_method ?c ?m ?a ?k ?st] =>
        destruct (call_method c m a k st) as [[v|e] s1]
    end; reflexivity.
Qed.

(** The override is none after the operation, whatever happened in it,
    a missing method included. *)
Lemma override_none_after
    (cls : gmap string method) (op : override_op) (s : Session) :
  msg_code_override (run_override_op cls op s).2 = None.
Proof. rewrite run_override_op_unfold. reflexivity. Qed.

(** C5: an override-setting operation runs the underlying method on the
    client with the override set to the operation's tag and clears the
    override afterwards, whether the method returns or raises;
    [toggle_passphrase] on a device without passphrase protection calls
    [apply_settings(use_passphrase=True)] under the tag [passphrase]. *)
Theorem override_op_sets_and_restores
    (cls : gmap string method) (op : override_op) (func : method)
    (s : Session) :
  cls !! underlying_method op = Some func ->
  let during := set_msg_code_override (Some (override_tag op)) s in
  let r := func (underlying_args op) (underlying_kwargs op s) during in
  msg_code_override during = Some (override_tag op)
  /\ run_override_op cls op s
     = (discard r.1, set_msg_code_override None r.2)
  /\ msg_code_override (run_override_op cls op s).2 = None
  /\ (op = TogglePassphrase ->
      passphrase_protection (features s) = false ->
      toggle_passphrase cls s
      = (discard (func [] [("use_passphrase", VBool true)]
                    (set_msg_code_override (Some "passphrase") s)).1,
         set_msg_code_override None
           (func [] [("use_passphrase", VBool true)]
              (set_msg_code_override (Some "passphrase") s)).2)).
Proof.
  intros Hfunc during r. subst during r.
  assert (run_override_op cls op s
          = (discard (func (underlying_args op) (underlying_kwargs op s)
                        (set_msg_code_override (Some (override_tag op)) s)).1,
             set_msg_code_override None
               (func (underlying_args op) (underlying_kwargs op s)
                  (set_msg_code_override (Some (override_tag op)) s)).2))
    as Hrun.
  { rewrite run_override_op_unfold. cbv zeta.
    by rewrite (call_method_found _ _ _ _ _ _ Hfunc). }
  split; [reflexivity|]. split; [exact Hrun|].
  split; [apply override_none_after|].
  intros -> Hoff. simpl in Hrun. rewrite Hoff in Hrun. exact Hrun.
Qed.

Lemma override_op_sets_and_restores_witness :
  msg_code_override
    (set_msg_code_override (Some "passphrase") demo_session)
  = Some "passphrase"
  /\ run_override_op demo_class TogglePassphrase demo_session
     = (Normal tt, demo_session)
  /\ msg_code_override
       (run_override_op demo_class TogglePassphrase demo_session).2 = None
  /\ (TogglePassphrase = TogglePassphrase ->
      passphrase_protection (features demo_session) = false ->
      toggle_passphrase demo_class demo_session = (Normal tt, demo_session)).
Proof.
  apply (override_op_sets_and_restores demo_class TogglePassphrase
           (fun _ _ => ret VNone) demo_session).
  vm_compute. reflexivity.
Defined.

(** The override is cleared when the underlying method raises: the class
    is wrapped and its [apply_settings] fails on the device. *)
Example toggle_passphrase_raising :
  toggle_passphrase
    (<["apply_settings" :=
         wrapper (fun _ _ => raise (RuntimeError "Device is gone"))]>
       demo_class)
    demo_session
  = (Raise (RuntimeError "Device is gone"),
     record_call finished_call demo_session).
Proof. vm_compute. reflexivity. Qed.

(** ** Session teardown *)

Lemma append_empty_r (t : string) : t ++ "" = t.
Proof.
  induction t as [|a t IH]; [reflexivity|].
  change (String a (t ++ "") = String a t). f_equal. exact IH.
Qed.

Lemma to_str_run (s : Session) : to_str s = (Normal (client_name s), s).
Proof.
  unfold to_str, client_name, label, bind, get_attr, format; simpl.
  by rewrite append_empty_r.
Qed.

Lemma clear_session_run (super_clear_session : M value) (s : Session) :
  clear_session super_clear_session s
  = match super_clear_session (announced s) with
    | (Normal _, s1) => (Normal tt, s1)
    | (Raise e, s1) =>
        (Normal tt,
         record_call
           (print_error_call ["clear_session: ignoring error"; str_exn e]) s1)
    end.
Proof.
  unfold clear_session. rewrite bind_unfold, to_str_run.
  unfold bind, print_error, modify, try_except, ret, announced; simpl.
  destruct (super_clear_session _) as [[v|e] s1]; reflexivity.
Qed.

Lemma close_run (super_clear_session transport_close : M value) (s : Session) :
  close super_clear_session transport_close s
  = let cleared :=
      (clear_session super_clear_session
         (record_call (print_error_call ["closing client"]) s)).2 in
    (discard (transport_close cleared).1, (transport_close cleared).2).
Proof.
  unfold close. rewrite bind_unfold. unfold print_error, modify.
  rewrite bind_unfold, clear_session_run.
  destruct (super_clear_session _) as [[v|e] s1]; cbv zeta; cbn [snd];
    rewrite bind_unfold;
    destruct (transport_close _) as [[v'|e'] s2]; reflexivity.
Qed.

(** C8: [clear_session] returns normally whatever the session-clear of the
    protocol does; an exception it raises is logged and dropped.  So
    [close] has the outcome of releasing the transport: it returns normally
    when that does, also when the session-clear raised. *)
Theorem clear_session_never_raises
    (super_clear_session transport_close : M value) (s : Session) :
  (clear_session super_clear_session s).1 = Normal tt
  /\ (forall e s1,
         super_clear_session (announced s) = (Raise e, s1) ->
         clear_session super_clear_session s
         = (Normal tt,
            record_call
              (print_error_call ["clear_session: ignoring error"; str_exn e])
              s1))
  /\ (let cleared :=
        (clear_session super_clear_session
           (record_call (print_error_call ["closing client"]) s)).2 in
      (close super_clear_session transport_close s).1
      = discard (transport_close cleared).1
      /\ (forall v s2,
             transport_close cleared = (Normal v, s2) ->
             close super_clear_session transport_close s = (Normal tt, s2))).
Proof.
  split; [|split].
  - rewrite clear_session_run.
    by destruct (super_clear_session _) as [[v|e] s1].
  - intros e s1 Hraise. by rewrite clear_session_run, Hraise.
  - cbv zeta. rewrite close_run. cbv zeta. split; [reflexivity|].
    intros v s2 Hrelease. by rewrite Hrelease.
Qed.

(** The device was removed: the session-clear raises, the transport is
    released, and [close] returns with the error in the log. *)
Example close_after_removal :
  close (raise (OtherException "IOError" "device not found")) (ret VNone)
    demo_session
  = (Normal tt,
     {| device := "TREZOR"; handler := demo_handler;
        types := types demo_session; msg_code_override := None;
        step := Some 0; features := demo_features;
        calls := [print_error_call ["closing client"];
                  print_error_call ["clear session:"; "savings/A1B2"];
                  print_error_call ["clear_session: ignoring error";
                                    "device not found"]] |}).
Proof. reflexivity. Qed.

(** ** Further properties of path expansion *)

Lemma split_nonempty (sep : ascii) (s : string) : split sep s <> [].
Proof.
  destruct s as [|a r]; simpl; [discriminate|].
  destruct (Ascii.eqb a sep); [discriminate|].
  destruct (split sep r); discriminate.
Qed.


Lemma split_no_sep (sep : ascii) (a : string) :
  count_char sep a = O -> split sep a = [a].
Proof.
  induction a as [|c a IH]; simpl; [reflexivity|].
  destruct (Ascii.eqb c sep); [discriminate|]. simpl.
  intros Hcount. by rewrite (IH Hcount).
Qed.

Lemma split_prefix (sep : ascii) (a r : string) :
  count_char sep a = O ->
  split sep (a ++ String sep r) = a :: split sep r.
Proof.
  induction a as [|c a IH]; simpl.
  - intros _. by rewrite Ascii.eqb_refl.
  - destruct (Ascii.eqb c sep); [discriminate|]. simpl.
    intros Hcount. by rewrite (IH Hcount).
Qed.

Lemma split_snoc (sep : ascii) (n : string) :
  split sep (n ++ String sep "") = (split sep n ++ [""])%list.
Proof.
  induction n as [|c n IH]; simpl.
  - by rewrite Ascii.eqb_refl.
  - destruct (Ascii.eqb c sep); [by rewrite IH|].
    rewrite IH. pose proof (split_nonempty sep n) as Hne.
    destruct (split sep n) as [|h t]; [done | reflexivity].
Qed.

Lemma map_outcome_Normal_iff {A B} (f : A -> outcome B) (xs : list A) :
  (exists vs, map_outcome f xs = Normal vs)
  <-> Forall (fun x => exists v, f x = Normal v) xs.
Proof.
  induction xs as [|x rest IH]; simpl.
  - split; [constructor | eauto].
  - split.
    + intros [vs Hvs]. destruct (f x) as [v|e] eqn:Hx; [|discriminate].
      constructor; [eauto|]. apply IH.
      destruct (map_outcome f rest) as [vs'|e]; [eauto | discriminate].
    + intros Hall. apply Forall_cons in Hall as [[v Hx] Hrest].
      apply IH in Hrest as [vs Hvs]. rewrite Hx, Hvs. eauto.
Qed.

Lemma map_outcome_Raise {A B} (f : A -> outcome B) (xs : list A) (e : exn) :
  map_outcome f xs = Raise e -> exists x, x ∈ xs /\ f x = Raise e.
Proof.
  induction xs as [|x rest IH]; simpl; [discriminate|].
  destruct (f x) as [v|e'] eqn:Hx.
  - destruct (map_outcome f rest) as [vs|e'']; [discriminate|].
    intros [= ->]. destruct IH as (y & Hin & Hy); [reflexivity|].
    exists y. split; [by apply list_elem_of_further | exact Hy].
  - intros [= ->]. exists x. split; [apply list_elem_of_here | exact Hx].
Qed.


Lemma component_value_spec_Raise (x : string) (e : exn) :
  component_value_spec x = Raise e ->
  py_int (numeral x) = None /\ e = ValueError (numeral x).
Proof.
  unfold component_value_spec.
  destruct (py_int (numeral x)) as [k|]; [discriminate|].
  by intros [= <-].
Qed.

(** X1: the first segment of the path is dropped whatever it is: two paths
    that differ only before the first slash expand alike, and a path
    without a slash expands to no index at all. *)
Theorem expand_path_first_segment_dropped (a b r : string) :
  count_char "/" a = O ->
  count_char "/" b = O ->
  expand_path (a ++ "/" ++ r) = expand_path (b ++ "/" ++ r)
  /\ expand_path a = Normal [].
Proof.
  intros Ha Hb. unfold expand_path.
  change ("/" ++ r) with (String "/" r).
  rewrite !split_prefix by assumption.
  by rewrite (split_no_sep _ _ Ha).
Qed.

Lemma expand_path_first_segment_dropped_witness :
  expand_path ("m" ++ "/" ++ "44'/0") = expand_path ("" ++ "/" ++ "44'/0")
  /\ expand_path "m" = Normal [].
Proof.
  apply (expand_path_first_segment_dropped "m" "" "44'/0"); reflexivity.
Defined.


(** X3: a path that ends with a slash, or has two slashes in a row, has an
    empty component and is rejected with a [ValueError]. *)
Theorem expand_path_empty_component (n r : string) :
  (exists m, expand_path (n ++ "/") = Raise (ValueError m))
  /\ (count_char "/" n = O ->
      exists m, expand_path (n ++ "//" ++ r) = Raise (ValueError m)).
Proof.
  assert (forall xs : list string,
             "" ∈ xs ->
             exists m, map_outcome component_value_spec xs
                       = Raise (ValueError m)) as Hempty.
  { intros xs Hin.
    destruct (map_outcome component_value_spec xs) as [vs|e] eqn:Hmap.
    - assert (exists vs, map_outcome component_value_spec xs = Normal vs)
        as Hall by eauto.
      apply map_outcome_Normal_iff in Hall.
      rewrite Forall_forall in Hall. destruct (Hall "" Hin) as [v Hv].
      discriminate.
    - apply map_outcome_Raise in Hmap as (x & _ & Hx).
      apply component_value_spec_Raise in Hx as [_ ->]. eauto. }
  split.
  - rewrite expand_path_spec_eq. unfold expand_path_spec.
    apply Hempty. rewrite split_snoc.
    pose proof (split_nonempty "/" n) as Hne.
    destruct (split "/" n) as [|h t]; [done|]. simpl.
    apply elem_of_app. right. apply list_elem_of_here.
  - intros Hcount. rewrite expand_path_spec_eq. unfold expand_path_spec.
    apply Hempty.
    change ("//" ++ r) with (String "/" (String "/" r)).
    rewrite split_prefix by exact Hcount. simpl.
    apply list_elem_of_here.
Qed.

Example expand_path_trailing_slash :
  expand_path "m/0/" = Raise (ValueError "").
Proof. reflexivity. Qed.

Lemma testbit_true_ge (x : Z) (i : Z) :
  0 <= x -> 0 <= i -> Z.testbit x i = true -> 2 ^ i <= x.
Proof.
  intros Hx Hi Hbit.
  destruct (Z_lt_le_dec x (2 ^ i)) as [Hlt|Hge]; [|exact Hge].
  destruct (Z.eq_dec x 0) as [->|Hne].
  - by rewrite Z.bits_0 in Hbit.
  - rewrite Z.bits_above_log2 in Hbit; [discriminate | exact Hx |].
    apply Z.log2_lt_pow2; lia.
Qed.

Lemma lor_flag_ge (a : Z) : 0 <= a -> 2 ^ 31 <= Z.lor a 0x80000000.
Proof.
  intros Ha. apply testbit_true_ge; [|lia|].
  - apply Z.lor_nonneg. lia.
  - rewrite Z.lor_spec. replace (Z.testbit 0x80000000 31) with true
      by reflexivity. apply orb_true_r.
Qed.

Lemma lor_flag_low (a : Z) :
  0 <= a < 2 ^ 31 -> Z.lor a 0x80000000 = a + 2 ^ 31.
Proof.
  intros Ha.
  assert (Z.land a 0x80000000 = 0) as Hland.
  { apply Z.bits_inj'. intros i Hi.
    rewrite Z.land_spec, Z.bits_0.
    change 0x80000000 with (2 ^ 31). rewrite Z.pow2_bits_eqb by lia.
    destruct (Z.eqb_spec 31 i) as [<-|Hne]; [|apply andb_false_r].
    destruct (Z.eq_dec a 0) as [->|Hnz]; [by rewrite Z.bits_0|].
    rewrite Z.bits_above_log2; [reflexivity | lia |].
    apply Z.log2_lt_pow2; lia. }
  rewrite <- Z.lxor_lor by exact Hland.
  rewrite <- Z.add_nocarry_lxor by exact Hland.
  reflexivity.
Qed.

(** X4: every index [expand_path] returns is non-negative, a hardened one
    is at least [2^31], and a component whose number is below [2^31] in
    absolute value gives that value, plus [2^31] when hardened, which fits
    in 32 bits. *)
Theorem expand_path_values (n : string) (path : list Z) :
  expand_path n = Normal path ->
  Forall2
    (fun x v =>
       0 <= v
       /\ (hardened x = true -> 2 ^ 31 <= v)
       /\ (forall k,
              py_int (numeral x) = Some k -> Z.abs k < 2 ^ 31 ->
              v = Z.abs k + (if hardened x then 2 ^ 31 else 0)
              /\ v < 2 ^ 32))
    (tail (split "/" n)) path.
Proof.
  rewrite expand_path_spec_eq. unfold expand_path_spec.
  intros Hmap. apply map_outcome_Forall2 in Hmap.
  eapply Forall2_impl; [exact Hmap|].
  intros x v Hx. simpl in Hx.
  apply component_value_spec_inv in Hx as (k & Hk & ->).
  pose proof (Z.abs_nonneg k) as Hk0.
  destruct (hardened x).
  - pose proof (lor_flag_ge _ Hk0) as Hge.
    split; [lia|]. split; [done|].
    intros k' Hk' Hlow.
    assert (k' = k) as -> by congruence.
    rewrite lor_flag_low by lia. lia.
  - split; [lia|]. split; [discriminate|].
    intros k' Hk' Hlow.
    assert (k' = k) as -> by congruence. lia.
Qed.

Lemma expand_path_values_witness :
  Forall2
    (fun x v =>
       0 <= v
       /\ (hardened x = true -> 2 ^ 31 <= v)
       /\ (forall k,
              py_int (numeral x) = Some k -> Z.abs k < 2 ^ 31 ->
              v = Z.abs k + (if hardened x then 2 ^ 31 else 0)
              /\ v < 2 ^ 32))
    (tail (split "/" "m/44'/0")) [0x8000002C; 0].
Proof. apply (expand_path_values "m/44'/0"). reflexivity. Defined.

(** The indices are not reduced to 32 bits: a number of 32 bits or more
    comes back as it is. *)
Example expand_path_wide_index :
  expand_path "m/4294967296" = Normal [4294967296].
Proof. reflexivity. Qed.

Lemma digit_value_range (a : ascii) (dv : Z) :
  digit_value a = Some dv ->
  (48 <= nat_of_ascii a <= 57)%nat /\ dv = Z.of_nat (nat_of_ascii a) - 48.
Proof.
  unfold digit_value.
  destruct (Nat.leb_spec 48 (nat_of_ascii a)) as [Hlo|Hlo];
    [|discriminate].
  destruct (Nat.leb_spec (nat_of_ascii a) 57) as [Hhi|Hhi];
    [|discriminate].
  simpl. intros [= <-]. split; [lia | reflexivity].
Qed.

Lemma py_int_head (a : ascii) (r : string) :
  a <> "-"%char -> a <> "+"%char -> is_space a = false ->
  py_int (String a r) = read_digits 0 false (String a r).
Proof.
  intros Hminus Hplus Hspace. unfold py_int. cbn [lstrip].
  rewrite Hspace. clear Hspace.
  destruct a as [[|] [|] [|] [|] [|] [|] [|] [|]]; try reflexivity.
  - exfalso. by apply Hminus.
  - exfalso. by apply Hplus.
Qed.

Lemma digit_value_head (a : ascii) (dv : Z) :
  digit_value a = Some dv ->
  0 <= dv
  /\ Ascii.eqb a quote = false
  /\ Ascii.eqb a "/" = false
  /\ is_space a = false
  /\ forall r, py_int (String a r) = read_digits 0 false (String a r).
Proof.
  intros Ha. pose proof (digit_value_range _ _ Ha) as [Hrange ->].
  assert (forall c : ascii,
             (nat_of_ascii c < 48)%nat -> a <> c) as Hother.
  { intros c Hc ->. lia. }
  assert (is_space a = false) as Hspace.
  { unfold is_space.
    destruct (Nat.eqb_spec (nat_of_ascii a) 32) as [Heq|_]; [lia|].
    destruct (Nat.leb_spec (nat_of_ascii a) 13) as [Hle|_]; [lia|].
    by rewrite andb_false_r. }
  split; [lia|].
  split; [apply Ascii.eqb_neq, Hother; vm_compute; lia|].
  split; [apply Ascii.eqb_neq, Hother; vm_compute; lia|].
  split; [exact Hspace|].
  intros r. apply py_int_head; [| |exact Hspace];
    apply Hother; vm_compute; lia.
Qed.

Lemma all_digits_read (d : string) :
  all_digits d = true ->
  forall acc seen, 0 <= acc ->
    exists v, read_digits acc seen d = Some v /\ 0 <= v.
Proof.
  induction d as [|a r IH]; simpl; [discriminate|].
  destruct (digit_value a) as [dv|] eqn:Ha; [|discriminate].
  destruct (digit_value_head _ _ Ha) as (Hdv & _).
  intros Hr acc seen Hacc.
  destruct r as [|b r'].
  - simpl. exists (10 * acc + dv). split; [reflexivity | lia].
  - apply IH; [exact Hr | lia].
Qed.

Lemma startswith_minus_neq (a : ascii) (r : string) :
  a <> "-"%char -> startswith "-" (String a r) = false.
Proof.
  intros Hne. unfold startswith. cbn [String.prefix].
  destruct (ascii_dec "-" a) as [Heq|_]; [congruence | reflexivity].
Qed.

Lemma startswith_minus_eq (r : string) :
  startswith "-" (String "-" r) = true.
Proof.
  unfold startswith. cbn [String.prefix].
  destruct (ascii_dec "-" "-") as [_|Hne]; [by destruct r | congruence].
Qed.

Lemma all_digits_plain (d : string) :
  all_digits d = true ->
  endswith_char quote d = false
  /\ startswith "-" d = false
  /\ remove_char quote d = d
  /\ count_char "/" d = O
  /\ py_int d = read_digits 0 false d.
Proof.
  intros Hd.
  assert (endswith_char quote d = false /\ remove_char quote d = d
          /\ count_char "/" d = O) as (Hend & Hrem & Hcount).
  { induction d as [|a r IH]; [discriminate|]. simpl in Hd.
    destruct (digit_value a) as [dv|] eqn:Ha; [|discriminate].
    destruct (digit_value_head _ _ Ha) as (_ & Hq & Hs & _).
    simpl. rewrite Hq, Hs.
    destruct r as [|b r']; [done|].
    destruct (IH Hd) as (-> & -> & ->). done. }
  repeat split; try assumption.
  - destruct d as [|a r]; [discriminate|]. simpl in Hd.
    destruct (digit_value a) as [dv|] eqn:Ha; [|discriminate].
    apply startswith_minus_neq. intros ->.
    vm_compute in Ha. discriminate Ha.
  - destruct d as [|a r]; [discriminate|]. simpl in Hd.
    destruct (digit_value a) as [dv|] eqn:Ha; [|discriminate].
    apply (digit_value_head _ _ Ha).
Qed.

Lemma endswith_char_snoc (c : ascii) (d : string) :
  endswith_char c (d ++ String c "") = true.
Proof.
  induction d as [|a r IH]; simpl; [apply Ascii.eqb_refl|].
  destruct (r ++ String c "") eqn:Happ; [|exact IH].
  destruct r; discriminate.
Qed.

Lemma remove_char_snoc (c : ascii) (d : string) :
  remove_char c (d ++ String c "") = remove_char c d.
Proof.
  induction d as [|a r IH]; simpl; [by rewrite Ascii.eqb_refl|].
  by rewrite IH.
Qed.

Lemma endswith_quote_snoc (d : string) :
  endswith_char quote (d ++ "'") = true.
Proof. exact (endswith_char_snoc quote d). Qed.

Lemma remove_quote_snoc (d : string) :
  remove_char quote (d ++ "'") = remove_char quote d.
Proof. exact (remove_char_snoc quote d). Qed.

Lemma count_char_snoc_quote (d : string) :
  count_char "/" (d ++ "'") = count_char "/" d.
Proof. induction d as [|a r IH]; simpl; [reflexivity | by rewrite IH]. Qed.

Lemma py_int_minus (r : string) :
  py_int (String "-" r) = Z.opp <$> read_digits 0 false r.
Proof. reflexivity. Qed.

Lemma endswith_char_cons (c a : ascii) (r : string) :
  r <> "" -> endswith_char c (String a r) = endswith_char c r.
Proof. destruct r; [done | reflexivity]. Qed.

Lemma all_digits_nonempty (d : string) : all_digits d = true -> d <> "".
Proof. by destruct d. Qed.

(** The four ways to write one component, for a run of digits [d]. *)
Lemma expand_component_notations (d : string) :
  all_digits d = true ->
  exists v,
    0 <= v
    /\ expand_component d = Normal v
    /\ expand_component ("-" ++ d) = Normal (Z.lor v 0x80000000)
    /\ expand_component (d ++ "'") = Normal (Z.lor v 0x80000000)
    /\ expand_component ("-" ++ d ++ "'") = Normal (Z.lor v 0x80000000).
Proof.
  intros Hd.
  destruct (all_digits_read _ Hd 0 false) as (v & Hv & Hv0); [lia|].
  destruct (all_digits_plain _ Hd) as (Hend & Hstart & Hrem & _ & Hint).
  pose proof (all_digits_nonempty _ Hd) as Hne.
  assert (py_int (String "-" d) = Some (- v)) as Hneg.
  { by rewrite py_int_minus, Hv. }
  assert (Z.abs v = v) as Habs by lia.
  assert (Z.abs (- v) = v) as Habsn by lia.
  pose proof startswith_minus_eq as Hsm'.
  exists v. split; [exact Hv0|].
  rewrite !expand_component_spec.
  unfold component_value_spec, numeral, hardened.
  change ("-" ++ d ++ "'") with (String "-" (d ++ "'")).
  change ("-" ++ d) with (String "-" d).
  rewrite (endswith_char_cons quote "-" d Hne).
  rewrite (endswith_char_cons quote "-" (d ++ "'")) by (by destruct d).
  rewrite endswith_quote_snoc, Hend, Hstart, !Hsm'.
  cbn [remove_char]. rewrite remove_quote_snoc, Hrem.
  replace (Ascii.eqb "-" quote) with false by reflexivity.
  rewrite Hint, Hv, Hneg, Habs, Habsn.
  repeat split.
Qed.

(** X5: for a run of digits [d], the components [-d], [d'] and [-d']
    all expand to the index of [d] with the hardening flag set: a prime, a
    minus sign or both mark the same hardened index. *)
Theorem expand_path_hardening_notations (a d : string) :
  count_char "/" a = O ->
  all_digits d = true ->
  exists v,
    0 <= v
    /\ expand_path (a ++ "/" ++ d) = Normal [v]
    /\ expand_path (a ++ "/" ++ "-" ++ d) = Normal [Z.lor v 0x80000000]
    /\ expand_path (a ++ "/" ++ d ++ "'") = Normal [Z.lor v 0x80000000]
    /\ expand_path (a ++ "/" ++ "-" ++ d ++ "'")
       = Normal [Z.lor v 0x80000000].
Proof.
  intros Ha Hd.
  destruct (expand_component_notations _ Hd) as (v & Hv0 & H1 & H2 & H3 & H4).
  destruct (all_digits_plain _ Hd) as (_ & _ & _ & Hcount & _).
  assert (forall x w,
             count_char "/" x = O -> expand_component x = Normal w ->
             expand_path (a ++ "/" ++ x) = Normal [w]) as Hone.
  { intros x w Hx Hw. unfold expand_path.
    change ("/" ++ x) with (String "/" x).
    rewrite split_prefix by exact Ha. rewrite (split_no_sep _ _ Hx).
    simpl. by rewrite Hw. }
  exists v. split; [exact Hv0|].
  split; [by apply Hone|].
  split; [apply Hone; [exact Hcount | exact H2]|].
  split.
  - apply Hone; [|exact H3]. by rewrite count_char_snoc_quote.
  - apply Hone; [|exact H4].
    change ("-" ++ d ++ "'") with (String "-" (d ++ "'")).
    simpl. by rewrite count_char_snoc_quote.
Qed.

Lemma expand_path_hardening_notations_witness :
  exists v,
    0 <= v
    /\ expand_path ("m" ++ "/" ++ "44") = Normal [v]
    /\ expand_path ("m" ++ "/" ++ "-" ++ "44") = Normal [Z.lor v 0x80000000]
    /\ expand_path ("m" ++ "/" ++ "44" ++ "'") = Normal [Z.lor v 0x80000000]
    /\ expand_path ("m" ++ "/" ++ "-" ++ "44" ++ "'")
       = Normal [Z.lor v 0x80000000].
Proof.
  apply (expand_path_hardening_notations "m" "44"); reflexivity.
Defined.

(** ** Further properties of the callbacks *)

Lemma callback_ButtonRequest_total (s : Session) (code : Z) :
  exists text,
    callback_ButtonRequest code s
    = (Normal ButtonAck, record_call (show_message_call text) s).
Proof.
  destruct (messages !! override_or_code (msg_code_override s) code)
    as [tmpl|] eqn:Hlook.
  - destruct (template_formats _ _ (device s) Hlook) as (pre & _ & Hfmt).
    eexists. apply callback_ButtonRequest_run. rewrite Hlook. exact Hfmt.
  - eexists. apply callback_ButtonRequest_run. rewrite Hlook. reflexivity.
Qed.

Lemma callback_WordRequest_run (s : Session) :
  callback_WordRequest s
  = match step s with
    | Some n =>
        (Normal (WordAck (get_word (handler s) (calls s)
                            (word_prompt (n + 1) (device s)))),
         record_call (get_word_call (word_prompt (n + 1) (device s)))
           (set_step (Some (n + 1)) s))
    | None => (Raise (AttributeError "step"), s)
    end.
Proof.
  unfold callback_WordRequest, bind, get_attr; simpl.
  destruct (step s); reflexivity.
Qed.

(** What every callback does to the client: one entry in the call log at
    most, and the step counter for a word request. *)
Lemma callback_effect (r : request) (s : Session) :
  (callback r s).2 = s
  \/ (exists e, r <> WordRequest /\ (callback r s).2 = record_call e s)
  \/ (exists e n, r = WordRequest
                  /\ (callback r s).2 = record_call e (set_step (Some n) s)).
Proof.
  destruct r as [code message | code | type | | | payload]; simpl.
  - left. unfold callback_Failure, bind, get_attr, raise; simpl.
    by destruct (_ || _)%bool.
  - right; left. destruct (callback_ButtonRequest_total s code) as [text ->].
    eexists. split; [discriminate | reflexivity].
  - right; left. rewrite callback_PinMatrixRequest_run.
    eexists. split; [discriminate | reflexivity].
  - right; left. rewrite callback_PassphraseRequest_run.
    eexists. split; [discriminate | reflexivity].
  - rewrite callback_WordRequest_run.
    destruct (step s) as [n|]; [|by left].
    right; right. eexists _, _. split; reflexivity.
  - right; left. rewrite callback_CharacterRequest_run.
    eexists. split; [discriminate | reflexivity].
Qed.

(** X6: no callback changes the override mode, the device name, the
    features, the handler or the failure codes of the client; only a word
    request changes the step counter; each callback makes at most one call
    on the handler, and a Failure report makes none. *)
Theorem callback_frame (r : request) (s : Session) :
  device (callback r s).2 = device s
  /\ handler (callback r s).2 = handler s
  /\ types (callback r s).2 = types s
  /\ features (callback r s).2 = features s
  /\ msg_code_override (callback r s).2 = msg_code_override s
  /\ (r <> WordRequest -> step (callback r s).2 = step s)
  /\ (calls (callback r s).2 = calls s
      \/ exists e, calls (callback r s).2 = (calls s ++ [e])%list)
  /\ (forall code message,
         r = Failure code message -> (callback r s).2 = s).
Proof.
  destruct (callback_effect r s)
    as [Heq | [(e & Hr & Heq) | (e & n & Hr & Heq)]]; rewrite Heq; simpl.
  - repeat split; auto.
  - repeat split; eauto.
    intros code message ->. revert Heq. simpl.
    unfold callback_Failure, bind, get_attr, raise; simpl.
    destruct (_ || _)%bool; simpl; intros <-; reflexivity.
  - repeat split; eauto; try (intros; congruence).
Qed.

(** X7: a callback raises only for a Failure report, which always raises,
    and for a word request on a client without a step counter; every
    other request is answered, with a message of its own kind: a button
    request with [ButtonAck], a word request with [WordAck], a PIN,
    passphrase or character request with [Cancel] or its own
    acknowledgement. *)
Theorem callback_answers (r : request) (s : Session) :
  match (callback r s).1 with
  | Normal a => answers r a = true
  | Raise e =>
      (exists code message,
          r = Failure code message
          /\ (e = SilentException \/ e = RuntimeError message))
      \/ (r = WordRequest /\ step s = None /\ e = AttributeError "step")
  end.
Proof.
  destruct r as [code message | code | type | | | payload]; simpl.
  - unfold callback_Failure, bind, get_attr, raise; simpl.
    destruct (_ || _)%bool; simpl; left; eauto.
  - by destruct (callback_ButtonRequest_total s code) as [text ->].
  - rewrite callback_PinMatrixRequest_run. simpl.
    destruct (get_pin _ _ _) as [p|]; [destruct (truthy p)|]; reflexivity.
  - rewrite callback_PassphraseRequest_run. simpl.
    destruct (get_passphrase _ _ _); reflexivity.
  - rewrite callback_WordRequest_run.
    destruct (step s) as [n|] eqn:Hstep; simpl; [reflexivity|].
    right. auto.
  - rewrite callback_CharacterRequest_run. simpl.
    destruct (get_char _ _ _) as [[|f fs]|]; reflexivity.
Qed.

Lemma answer_all_cons (r : request) (rest : list request) (s : Session) :
  answer_all (r :: rest) s
  = match callback r s with
    | (Normal a, s1) =>
        match answer_all rest s1 with
        | (Normal others, s2) => (Normal (a :: others), s2)
        | (Raise e, s2) => (Raise e, s2)
        end
    | (Raise e, s1) => (Raise e, s1)
    end.
Proof.
  simpl. unfold bind, ret.
  destruct (callback r s) as [[a|e] s1]; [|reflexivity].
  destruct (answer_all rest s1) as [[others|e] s2]; reflexivity.
Qed.

(** X8: [k] word requests in a row, on a client whose step counter is at
    [n], are all answered with a [WordAck]; the handler is asked for the
    words of steps [n + 1] to [n + k], in this order, and the counter ends
    at [n + k]. *)
Theorem word_requests_in_sequence (k : nat) (s : Session) (n : Z) :
  step s = Some n ->
  exists acks s',
    answer_all (replicate k WordRequest) s = (Normal acks, s')
    /\ length acks = k
    /\ Forall (fun a => exists w, a = WordAck w) acks
    /\ step s' = Some (n + Z.of_nat k)
    /\ calls s'
       = (calls s
          ++ ((fun i => get_word_call (word_prompt (n + Z.of_nat i) (device s)))
                <$> seq 1 k))%list
    /\ msg_code_override s' = msg_code_override s.
Proof.
  revert s n. induction k as [|k IH]; intros s n Hstep.
  - exists [], s. simpl. rewrite app_nil_r, Z.add_0_r. by repeat split.
  - change (replicate (S k) WordRequest)
      with (WordRequest :: replicate k WordRequest).
    rewrite answer_all_cons. simpl callback.
    rewrite callback_WordRequest_run, Hstep.
    set (s1 := record_call (get_word_call (word_prompt (n + 1) (device s)))
                 (set_step (Some (n + 1)) s)).
    destruct (IH s1 (n + 1)) as (acks & s' & -> & Hlen & Hacks & Hs' & Hcalls
                                 & Hover); [reflexivity|].
    eexists _, s'. split; [reflexivity|].
    split; [simpl; by rewrite Hlen|].
    split; [constructor; eauto|].
    split; [rewrite Hs'; f_equal; lia|].
    split; [|exact Hover].
    rewrite Hcalls. subst s1. simpl calls. simpl device.
    rewrite <- app_assoc. f_equal.
    change (seq 1 (S k)) with (1%nat :: seq 2 k).
    rewrite fmap_cons. cbn [app]. f_equal.
    rewrite <- (fmap_S_seq 1 k), <- list_fmap_compose.
    apply list_fmap_ext. intros i x _. unfold compose.
    replace (n + 1 + Z.of_nat x) with (n + Z.of_nat (S x)) by lia.
    reflexivity.
Qed.

(** A recovery of 24 words on a client whose counter was reset. *)
Lemma word_requests_in_sequence_witness :
  exists acks s',
    answer_all (replicate 24 WordRequest) demo_session = (Normal acks, s')
    /\ length acks = 24%nat
    /\ Forall (fun a => exists w, a = WordAck w) acks
    /\ step s' = Some (0 + Z.of_nat 24)
    /\ calls s'
       = (calls demo_session
          ++ ((fun i => get_word_call
                          (word_prompt (0 + Z.of_nat i) (device demo_session)))
                <$> seq 1 24))%list
    /\ msg_code_override s' = msg_code_override demo_session.
Proof.
  apply (word_requests_in_sequence 24 demo_session 0). reflexivity.
Defined.

(** ** Further properties of the method wrapper *)

Lemma wrap_loop_present (names : list string) :
  forall cls : gmap string method,
    (wrap_loop names cls).1 = Normal tt ->
    forall name, name ∈ names -> is_Some (cls !! name).
Proof.
  induction names as [|first rest IH]; intros cls Hok name Hin.
  - by apply elem_of_nil in Hin.
  - simpl in Hok.
    destruct (cls !! first) as [func|] eqn:Hfirst; [|discriminate].
    apply elem_of_cons in Hin as [->|Hin]; [eauto|].
    destruct (decide (name = first)) as [->|Hne]; [eauto|].
    specialize (IH _ Hok name Hin).
    by rewrite lookup_insert_ne in IH by congruence.
Qed.

Lemma wrap_loop_stops (pre : list string) (m : string) (post : list string) :
  NoDup (pre ++ m :: post) ->
  forall cls : gmap string method,
    (forall name, name ∈ pre -> is_Some (cls !! name)) ->
    cls !! m = None ->
    exists cls',
      wrap_loop (pre ++ m :: post) cls = (Raise (AttributeError m), cls')
      /\ forall name,
           cls' !! name
           = if decide (name ∈ pre) then wrapper <$> cls !! name
             else cls !! name.
Proof.
  induction pre as [|p pre IH]; intros Hnodup cls Hpre Hm.
  - exists cls. cbn [app wrap_loop]. rewrite Hm. split; [reflexivity|].
    intros name. case_decide as Hin; [|reflexivity].
    by apply elem_of_nil in Hin.
  - simpl in Hnodup. apply NoDup_cons in Hnodup as [Hfresh Hnodup].
    destruct (Hpre p) as [func Hp]; [apply list_elem_of_here|].
    assert (p <> m) as Hpm.
    { intros ->. apply Hfresh, elem_of_app. right. apply list_elem_of_here. }
    assert (p ∉ pre) as Hppre.
    { intros Hin. apply Hfresh, elem_of_app. by left. }
    destruct (IH Hnodup (<[p := wrapper func]> cls)) as (cls' & Hrun & Hlook).
    + intros name Hin. destruct (decide (name = p)) as [->|Hne].
      * rewrite lookup_insert_eq. eauto.
      * rewrite lookup_insert_ne by congruence.
        apply Hpre. by apply list_elem_of_further.
    + by rewrite lookup_insert_ne.
    + exists cls'. cbn [app wrap_loop]. rewrite Hp. split; [exact Hrun|].
      intros name. rewrite Hlook.
      destruct (decide (name = p)) as [->|Hne].
      * rewrite (decide_False (P := p ∈ pre)) by exact Hppre.
        rewrite (decide_True (P := p ∈ p :: pre)) by apply list_elem_of_here.
        by rewrite lookup_insert_eq, Hp.
      * rewrite lookup_insert_ne by congruence.
        repeat case_decide; try reflexivity.
        -- exfalso. apply H0. by apply list_elem_of_further.
        -- exfalso. apply elem_of_cons in H0 as [?|?]; tauto.
Qed.

(** X9: [wrap_methods] returns normally exactly on a class that has every
    one of the twelve listed methods. *)
Theorem wrap_methods_succeeds_iff (cls : gmap string method) :
  (wrap_methods cls).1 = Normal tt
  <-> forall name, name ∈ wrapped_method_names -> is_Some (cls !! name).
Proof.
  split.
  - apply wrap_loop_present.
  - apply wrap_loop_succeeds.
Qed.

(** X10: on a class that lacks a listed method, [wrap_methods] raises an
    [AttributeError] for the first missing name and leaves the class half
    rewritten: the names listed before it are wrapped, all others are as
    they were. *)
Theorem wrap_methods_stops_at_first_missing
    (cls : gmap string method) (pre : list string) (m : string)
    (post : list string) :
  wrapped_method_names = (pre ++ m :: post)%list ->
  (forall name, name ∈ pre -> is_Some (cls !! name)) ->
  cls !! m = None ->
  exists cls',
    wrap_methods cls = (Raise (AttributeError m), cls')
    /\ forall name,
         cls' !! name
         = if decide (name ∈ pre) then wrapper <$> cls !! name
           else cls !! name.
Proof.
  intros Hnames Hpre Hm. unfold wrap_methods. rewrite Hnames.
  apply wrap_loop_stops; try assumption.
  rewrite <- Hnames. apply wrapped_method_names_NoDup.
Qed.

Lemma wrap_methods_stops_at_first_missing_witness :
  exists cls',
    wrap_methods (delete "change_pin" demo_class)
    = (Raise (AttributeError "change_pin"), cls')
    /\ forall name,
         cls' !! name
         = if decide (name ∈ ["apply_settings"])
           then wrapper <$> delete "change_pin" demo_class !! name
           else delete "change_pin" demo_class !! name.
Proof.
  apply (wrap_methods_stops_at_first_missing
           (delete "change_pin" demo_class) ["apply_settings"] "change_pin"
           ["decrypt_message"; "get_address"; "get_public_node";
            "load_device_by_mnemonic"; "load_device_by_xprv";
            "recovery_device"; "reset_device"; "sign_message";
            "sign_tx"; "wipe_device"]).
  - reflexivity.
  - intros name Hin. apply list_elem_of_singleton in Hin as ->.
    vm_compute. eauto.
  - vm_compute. reflexivity.
Defined.

(** X11: [wrap_methods] is not idempotent: run a second time on the same
    class it succeeds again and wraps the wrapped methods, so that a call
    of a listed operation signals completion twice. *)
Theorem wrap_methods_twice
    (cls cls1 : gmap string method) (name : string) (func : method)
    (args : list value) (kwargs : list (string * value)) (s : Session) :
  name ∈ wrapped_method_names ->
  wrap_methods cls = (Normal tt, cls1) ->
  cls !! name = Some func ->
  exists cls2,
    wrap_methods cls1 = (Normal tt, cls2)
    /\ call_method cls2 name args kwargs s
       = ((func args kwargs s).1,
          record_call finished_call
            (record_call finished_call (func args kwargs s).2)).
Proof.
  intros Hlisted Hwrap Hfunc.
  assert ((wrap_methods cls1).1 = Normal tt) as Hok.
  { apply wrap_loop_succeeds. intros other Hother.
    rewrite (wrap_methods_lookup _ _ other Hwrap).
    rewrite decide_True by exact Hother.
    destruct (wrap_loop_present wrapped_method_names cls) with (name := other)
      as [g Hg]; [unfold wrap_methods in Hwrap; by rewrite Hwrap | done |].
    rewrite Hg. simpl. eauto. }
  exists (wrap_methods cls1).2. split.
  { rewrite <- Hok. by destruct (wrap_methods cls1). }
  assert (wrap_methods cls1 = (Normal tt, (wrap_methods cls1).2)) as Hwrap2.
  { rewrite <- Hok. by destruct (wrap_methods cls1). }
  pose proof (wrap_methods_lookup _ _ name Hwrap) as Hlook1.
  pose proof (wrap_methods_lookup _ _ name Hwrap2) as Hlook2.
  rewrite decide_True, Hfunc in Hlook1 by exact Hlisted.
  rewrite decide_True, Hlook1 in Hlook2 by exact Hlisted.
  rewrite (call_method_found _ name (wrapper (wrapper func)) args kwargs s
             Hlook2).
  by rewrite !wrapper_run.
Qed.

Lemma wrap_methods_twice_witness :
  exists cls2,
    wrap_methods (wrap_methods demo_class).2 = (Normal tt, cls2)
    /\ call_method cls2 "sign_tx" [] [] demo_session
       = (Normal VNone,
          record_call finished_call
            (record_call finished_call demo_session)).
Proof.
  apply (wrap_methods_twice demo_class (wrap_methods demo_class).2 "sign_tx"
           (fun _ _ => ret VNone) [] [] demo_session).
  - unfold wrapped_method_names. set_solver.
  - vm_compute. reflexivity.
  - vm_compute. reflexivity.
Defined.

(** ** How the operations compose *)

Lemma underlying_method_listed (op : override_op) :
  underlying_method op ∈ wrapped_method_names.
Proof.
  destruct op; unfold underlying_method, wrapped_method_names; set_solver.
Qed.

(** X12: on a class rewritten by [wrap_methods], an override-setting
    operation runs the underlying method with the tag set, signals
    completion to the handler once, and returns with the override
    cleared, whether the method returned or raised. *)
Theorem override_op_on_wrapped_class
    (cls cls' : gmap string method) (op : override_op) (func : method)
    (s : Session) :
  wrap_methods cls = (Normal tt, cls') ->
  cls !! underlying_method op = Some func ->
  run_override_op cls' op s
  = (discard (func (underlying_args op) (underlying_kwargs op s)
                (set_msg_code_override (Some (override_tag op)) s)).1,
     set_msg_code_override None
       (record_call finished_call
          (func (underlying_args op) (underlying_kwargs op s)
             (set_msg_code_override (Some (override_tag op)) s)).2)).
Proof.
  intros Hwrap Hfunc.
  pose proof (wrap_methods_lookup _ _ (underlying_method op) Hwrap) as Hlook.
  rewrite decide_True, Hfunc in Hlook by apply underlying_method_listed.
  rewrite run_override_op_unfold. cbv zeta.
  rewrite (call_method_found cls' _ (wrapper func) _ _ _ Hlook).
  by rewrite wrapper_run.
Qed.

Lemma override_op_on_wrapped_class_witness :
  run_override_op (wrap_methods demo_class).2 (SetPin true) demo_session
  = (Normal tt, record_call finished_call demo_session).
Proof.
  apply (override_op_on_wrapped_class demo_class (wrap_methods demo_class).2
           (SetPin true) (fun _ _ => ret VNone) demo_session).
  - vm_compute. reflexivity.
  - vm_compute. reflexivity.
Defined.

Lemma override_text_format (op : override_op) (dev : string) :
  exists tmpl,
    messages !! KStr (override_tag op) = Some tmpl
    /\ pyformat tmpl [FStr dev] = Some (override_text op dev).
Proof.
  destruct op as [| new_label | homescreen | [|]];
    (eexists; split; [vm_compute; reflexivity | reflexivity]).
Qed.

(** X13: a button request that arrives while an override-setting
    operation runs shows the text of that operation, whatever the code of
    the request; once the operation has returned, a request with the same
    code shows the text of its code again. *)
Theorem override_op_button_text
    (cls : gmap string method) (op : override_op) (code : Z) (s : Session) :
  cls !! underlying_method op = Some (button_exchange code) ->
  run_override_op cls op s
  = (Normal tt,
     set_msg_code_override None
       (record_call (show_message_call (override_text op (device s))) s))
  /\ exists text,
       pyformat (default "Check %s device to continue"
                   (messages !! KInt code)) [FStr (device s)] = Some text
       /\ (callback (ButtonRequest code) (run_override_op cls op s).2).2
          = record_call (show_message_call text)
              (run_override_op cls op s).2.
Proof.
  intros Hfunc.
  assert (run_override_op cls op s
          = (Normal tt,
             set_msg_code_override None
               (record_call (show_message_call (override_text op (device s)))
                  s))) as Hrun.
  { rewrite run_override_op_unfold. cbv zeta.
    rewrite (call_method_found cls _ _ _ _ _ Hfunc).
    unfold button_exchange. rewrite bind_unfold.
    change (callback (ButtonRequest code)) with (callback_ButtonRequest code).
    destruct (override_text_format op (device s)) as (tmpl & Htmpl & Hfmt).
    destruct (override_tag_template op) as (Htag & _).
    rewrite (callback_ButtonRequest_run _ code (override_text op (device s))).
    - reflexivity.
    - cbn [msg_code_override set_msg_code_override override_or_code device].
      by rewrite (truthy_nonempty _ Htag), Htmpl. }
  split; [exact Hrun|].
  rewrite Hrun. cbn [snd].
  change (callback (ButtonRequest code)) with (callback_ButtonRequest code).
  destruct (messages !! KInt code) as [tmpl|] eqn:Hlook.
  - destruct (template_formats _ _ (device s) Hlook) as (pre & _ & Hfmt).
    eexists. split; [exact Hfmt|].
    rewrite (callback_ButtonRequest_run _ code
               (pre ++ device s ++ " device to continue")); [reflexivity|].
    cbn [msg_code_override set_msg_code_override override_or_code device
         record_call].
    by rewrite Hlook.
  - eexists. split; [reflexivity|].
    rewrite (callback_ButtonRequest_run _ code
               ("Check " ++ device s ++ " device to continue"));
      [reflexivity|].
    cbn [msg_code_override set_msg_code_override override_or_code device
         record_call].
    by rewrite Hlook.
Qed.

Lemma override_op_button_text_witness :
  run_override_op (<["apply_settings" := button_exchange 3]> demo_class)
    (ChangeLabel "savings") demo_session
  = (Normal tt,
     set_msg_code_override None
       (record_call
          (show_message_call
             "Confirm label change on TREZOR device to continue")
          demo_session)).
Proof.
  apply (override_op_button_text
           (<["apply_settings" := button_exchange 3]> demo_class)
           (ChangeLabel "savings") 3 demo_session).
  vm_compute. reflexivity.
Defined.

Lemma get_address_listed : "get_address" ∈ wrapped_method_names.
Proof. unfold wrapped_method_names. set_solver. Qed.

(** X14: [first_address] on a wrapped class asks the device for the
    Bitcoin address of the expanded derivation and signals completion
    once; when the derivation does not parse it raises the [ValueError] of
    [expand_path] at once: the device is not called, nothing is signalled
    and the client is left as it was. *)
Theorem first_address_on_wrapped_class
    (cls cls' : gmap string method) (func : method) (derivation : string)
    (s : Session) :
  wrap_methods cls = (Normal tt, cls') ->
  cls !! "get_address" = Some func ->
  (forall path,
      expand_path derivation = Normal path ->
      first_address cls' derivation s
      = ((func [VStr "Bitcoin"; VList (VInt <$> path)] [] s).1,
         record_call finished_call
           (func [VStr "Bitcoin"; VList (VInt <$> path)] [] s).2))
  /\ (forall e,
         expand_path derivation = Raise e ->
         first_address cls' derivation s = (Raise e, s)
         /\ exists m, e = ValueError m).
Proof.
  intros Hwrap Hfunc.
  pose proof (wrap_methods_lookup _ _ "get_address" Hwrap) as Hlook.
  rewrite decide_True, Hfunc in Hlook by apply get_address_listed.
  unfold first_address, address_from_derivation. split.
  - intros path ->.
    rewrite (call_method_found cls' _ (wrapper func) _ _ _ Hlook).
    by rewrite wrapper_run.
  - intros e He. rewrite He. split; [reflexivity|].
    rewrite expand_path_spec_eq in He. unfold expand_path_spec in He.
    apply map_outcome_Raise in He as (x & _ & Hx).
    apply component_value_spec_Raise in Hx as [_ ->]. eauto.
Qed.

Lemma first_address_on_wrapped_class_witness :
  (forall path,
      expand_path "m/44'/0" = Normal path ->
      first_address (wrap_methods demo_class).2 "m/44'/0" demo_session
      = ((ret VNone demo_session).1,
         record_call finished_call (ret VNone demo_session).2))
  /\ (forall e,
         expand_path "m/44'/0" = Raise e ->
         first_address (wrap_methods demo_class).2 "m/44'/0" demo_session
         = (Raise e, demo_session)
         /\ exists m, e = ValueError m).
Proof.
  apply (first_address_on_wrapped_class demo_class (wrap_methods demo_class).2
           (fun _ _ => ret VNone) "m/44'/0" demo_session).
  - vm_compute. reflexivity.
  - vm_compute. reflexivity.
Defined.

Example first_address_bad_derivation :
  first_address (wrap_methods demo_class).2 "m/44'/x" demo_session
  = (Raise (ValueError "x"), demo_session).
Proof. vm_compute. reflexivity. Qed.

(** ** Reading the version comparison *)

Lemma cmp_tuple_range (a b : Z * Z * Z) :
  cmp_tuple a b = -1 \/ cmp_tuple a b = 0 \/ cmp_tuple a b = 1.
Proof.
  destruct a as [[a1 a2] a3], b as [[b1 b2] b3].
  unfold cmp_tuple, cmp.
  repeat match goal with
         | |- context [Z.eqb ?x ?y] => destruct (Z.eqb x y); simpl
         | |- context [Z.ltb ?x ?y] => destruct (Z.ltb x y); simpl
         end; tauto.
Qed.

Lemma lex_lt_asym (a b : Z * Z * Z) : lex_lt a b -> ~ lex_lt b a.
Proof.
  destruct a as [[a1 a2] a3], b as [[b1 b2] b3]. unfold lex_lt. lia.
Qed.

Lemma lex_lt_irrefl (a : Z * Z * Z) : ~ lex_lt a a.
Proof. destruct a as [[a1 a2] a3]. unfold lex_lt. lia. Qed.

(** X15: [atleast_version], read as a truth value, is false exactly when
    the firmware version equals the given one, and true both for a newer
    and for an older firmware; the firmware is at least the given version
    exactly when the result is not negative; comparing the other way
    round negates the result. *)
Theorem atleast_version_reading (s : Session) (major minor patch : Z) :
  (atleast_version s major minor patch <> 0
   <-> firmware_version s <> (major, minor, patch))
  /\ (0 <= atleast_version s major minor patch
      <-> ~ lex_lt (firmware_version s) (major, minor, patch))
  /\ cmp_tuple (major, minor, patch) (firmware_version s)
     = - atleast_version s major minor patch.
Proof.
  unfold atleast_version.
  pose proof (cmp_tuple_spec (firmware_version s) (major, minor, patch))
    as (Hl & He & Hg).
  pose proof (cmp_tuple_spec (major, minor, patch) (firmware_version s))
    as (Hl' & He' & Hg').
  pose proof (cmp_tuple_range (firmware_version s) (major, minor, patch))
    as Hrange.
  pose proof (cmp_tuple_range (major, minor, patch) (firmware_version s))
    as Hrange'.
  pose proof (lex_lt_asym (firmware_version s) (major, minor, patch))
    as Hasym.
  pose proof (lex_lt_irrefl (major, minor, patch)) as Hirr.
  set (c := cmp_tuple (firmware_version s) (major, minor, patch)) in *.
  set (c' := cmp_tuple (major, minor, patch) (firmware_version s)) in *.
  split; [|split].
  - rewrite He. tauto.
  - split.
    + intros Hc Hlt. apply Hl in Hlt. lia.
    + intros Hnlt. destruct Hrange as [Hc|[Hc|Hc]]; [tauto | lia | lia].
  - destruct Hrange as [Hc|[Hc|Hc]].
    + rewrite Hc. apply Hl in Hc. apply Hg' in Hc. rewrite Hc. reflexivity.
    + rewrite Hc. apply He in Hc. symmetry in Hc. apply He' in Hc.
      rewrite Hc. reflexivity.
    + rewrite Hc. apply Hg in Hc. apply Hl' in Hc. rewrite Hc. reflexivity.
Qed.

Example atleast_version_older_is_true :
  atleast_version demo_session 2 0 0 <> 0.
Proof. discriminate. Qed.
